(** * code2md: the filtering policy and the two traversals of [Code2MD]

    A shallow embedding of [src/code2md/main.py]: the two predicates
    [should_exclude_dir] and [should_exclude_file], the tree renderer
    [generate_tree_structure] and the file collector [collect_files],
    together with the parts of the Python runtime they rely on
    ([pathlib], [fnmatch], [sorted], [str] methods, exceptions). *)

From Stdlib Require Import Ascii NArith Sorted.
From Stdlib Require String.
From stdpp Require Import base strings list gmap.

Local Open Scope stdpp_scope.

(** ** Python strings

    A [str] is modelled as a Rocq [string], a sequence of 8-bit characters:
    exact for ASCII text; for other text the characters are the bytes of its
    UTF-8 encoding, whose order is the order of the code points.  The
    methods below are the ones the program calls. *)

Module Str.

(** [s.startswith(pre)] *)
Definition startswith (s pre : string) : bool := String.prefix pre s.

(** [c in s] for a one-character [c] *)
Fixpoint contains (c : ascii) (s : string) : bool :=
  match s with
  | EmptyString => false
  | String x s' => Ascii.eqb x c || contains c s'
  end.

(** [s.split(sep)] for a one-character separator: never the empty list *)
Fixpoint split (sep : ascii) (s : string) : list string :=
  match s with
  | EmptyString => [EmptyString]
  | String c s' =>
      if Ascii.eqb c sep then EmptyString :: split sep s'
      else match split sep s' with
           | [] => [String c EmptyString]
           | w :: ws => String c w :: ws
           end
  end.

(** [sep.join(parts)] *)
Definition join (sep : string) (parts : list string) : string :=
  String.concat sep parts.

Definition lower_ascii (c : ascii) : ascii :=
  let n := N_of_ascii c in
  if (65 <=? n)%N && (n <=? 90)%N then ascii_of_N (n + 32) else c.

(** [s.lower()], on the ASCII letters; other cased characters are left as
    they are, so the model is exact on ASCII names *)
Fixpoint lower (s : string) : string :=
  match s with
  | EmptyString => EmptyString
  | String c s' => String (lower_ascii c) (lower s')
  end.

(** [s1 < s2]: lexicographic, by character code *)
Definition ltb (s1 s2 : string) : bool := String.ltb s1 s2.

End Str.

(** ** [fnmatch.fnmatch] on a POSIX host

    [os.path.normcase] is the identity there, so [fnmatch] is [fnmatchcase]:
    the pattern is translated ([fnmatch.translate]) and matched against the
    whole name.  The translation is kept as a list of tokens instead of a
    regular expression: [*] is any run of characters, [?] is one character,
    [[...]] is a character class, and a [[] that no []] closes stands for
    itself. *)

Module Fnmatch.

Inductive class_item : Type :=
| CSingle (c : ascii)
| CRange (lo hi : ascii).

Inductive glob_tok : Type :=
| GStar
| GAny
| GLit (c : ascii)
| GClass (negated : bool) (items : list class_item).

(** The chunks of a bracket expression, as [fnmatch.translate] cuts it: at
    each hyphen that builds a range.  [guard] counts the characters ahead
    that cannot be such a hyphen: the first one (the first two after a
    leading [!]) and the two that follow a cut. *)
Fixpoint chunks_go (guard : nat) (chunk : list ascii) (l : list ascii) :
    list (list ascii) :=
  match l with
  | [] => [chunk]
  | c :: l' =>
      match guard with
      | S g => chunks_go g (chunk ++ [c]) l'
      | O =>
          if Ascii.eqb c "-"%char then chunk :: chunks_go 2 [] l'
          else chunks_go 0 (chunk ++ [c]) l'
      end
  end.

(** An empty last chunk (the text ends in a hyphen that was cut at) gives
    the hyphen back to the chunk before it. *)
Fixpoint close_chunks (cs : list (list ascii)) : list (list ascii) :=
  match cs with
  | [] => []
  | c :: cs' =>
      match cs' with
      | [[]] => [c ++ ["-"%char]]
      | _ => c :: close_chunks cs'
      end
  end.

(** One step of the removal of empty ranges, from the last chunk to the
    first: a range whose bounds are out of order is dropped with both its
    bounds, and the two chunks around it become one. *)
Definition merge_step (c : list ascii) (acc : list (list ascii)) :
    list (list ascii) :=
  match acc with
  | [] => [c]
  | d :: acc' =>
      match last c, d with
      | Some lo, hi :: d' =>
          if (N_of_ascii hi <? N_of_ascii lo)%N
          then (removelast c ++ d') :: acc'
          else c :: acc
      | _, _ => c :: acc
      end
  end.

Definition remove_empty_ranges (cs : list (list ascii)) : list (list ascii) :=
  foldr merge_step [] cs.

(** The items of the class [c-d-...] that the chunks are joined to: a
    range from the last character of a chunk to the first of the next one,
    every other character for itself; the hyphen after an empty first
    chunk stands for itself. *)
Fixpoint chunk_items (c : list ascii) (rest : list (list ascii)) :
    list class_item :=
  match rest with
  | [] => CSingle <$> c
  | d :: rest' =>
      match last c, d with
      | Some lo, hi :: d' =>
          (CSingle <$> removelast c) ++ CRange lo hi :: chunk_items d' rest'
      | None, _ => CSingle "-"%char :: chunk_items d rest'
      | Some _, [] =>
          (CSingle <$> c) ++ CSingle "-"%char :: chunk_items [] rest'
      end
  end.

Fixpoint find_close (l : list ascii) : option nat :=
  match l with
  | [] => None
  | c :: l' => if Ascii.eqb c "]"%char then Some 0 else S <$> find_close l'
  end.

(** Position of the [']'] closing a bracket expression, in the text after
    the opening bracket: a leading [!] and a [']'] in first position do not
    close it. *)
Definition class_end (l : list ascii) : option nat :=
  let j0 := match l with "!"%char :: _ => 1 | _ => 0 end in
  let j1 := match drop j0 l with "]"%char :: _ => S j0 | _ => j0 end in
  (fun k => j1 + k) <$> find_close (drop j1 l).

(** The class of a bracket expression with text [stuff]: what is left
    after the removal of the empty ranges is negated when it starts with
    [!], also when the [!] has come first by that removal. *)
Definition class_tok (stuff : list ascii) : glob_tok :=
  let guard := match stuff with "!"%char :: _ => 2 | _ => 1 end in
  match remove_empty_ranges (close_chunks (chunks_go guard [] stuff)) with
  | [] => GClass false []
  | c :: rest =>
      match c with
      | "!"%char :: c' => GClass true (chunk_items c' rest)
      | _ => GClass false (chunk_items c rest)
      end
  end.

(** [skip] counts the characters of a bracket expression still to be
    passed over. *)
Fixpoint translate_go (skip : nat) (pat : list ascii) : list glob_tok :=
  match pat with
  | [] => []
  | c :: rest =>
      match skip with
      | S k => translate_go k rest
      | O =>
          if Ascii.eqb c "*"%char then GStar :: translate_go 0 rest
          else if Ascii.eqb c "?"%char then GAny :: translate_go 0 rest
          else if Ascii.eqb c "["%char then
            match class_end rest with
            | None => GLit "["%char :: translate_go 0 rest
            | Some j => class_tok (take j rest) :: translate_go (S j) rest
            end
          else GLit c :: translate_go 0 rest
      end
  end.

Definition translate (pat : string) : list glob_tok :=
  translate_go 0 (String.list_ascii_of_string pat).

Definition class_item_match (x : ascii) (it : class_item) : bool :=
  match it with
  | CSingle c => Ascii.eqb x c
  | CRange lo hi =>
      (N_of_ascii lo <=? N_of_ascii x)%N && (N_of_ascii x <=? N_of_ascii hi)%N
  end.

Definition tok_match (t : glob_tok) (x : ascii) : bool :=
  match t with
  | GStar | GAny => true
  | GLit c => Ascii.eqb x c
  | GClass negated items => xorb negated (existsb (class_item_match x) items)
  end.

Fixpoint glob_match (ts : list glob_tok) (s : list ascii) : bool :=
  match ts with
  | [] => match s with [] => true | _ => false end
  | GStar :: ts' =>
      (fix star (s : list ascii) : bool :=
         glob_match ts' s
         || match s with [] => false | _ :: s' => star s' end) s
  | t :: ts' =>
      match s with
      | [] => false
      | x :: s' => tok_match t x && glob_match ts' s'
      end
  end.

Definition fnmatch (name pat : string) : bool :=
  glob_match (translate pat) (String.list_ascii_of_string name).

End Fnmatch.

(** ** Exceptions

    The two exceptions the traversal code can meet: [PermissionError] from
    listing a directory and [ValueError] from [Path.relative_to].  The
    model covers trees shallower than the recursion limit of the
    interpreter and paths within the length limit of the host:
    [RecursionError], and [OSError] for a name that is too long, are not
    among its outcomes. *)

Inductive exn : Type :=
| PermissionError
| ValueError.

Inductive result (A : Type) : Type :=
| Ok (a : A)
| Raise (e : exn).
Global Arguments Ok {A} a.
Global Arguments Raise {A} e.

Global Instance result_ret : MRet result := @Ok.
Global Instance result_bind : MBind result := λ A B f m,
  match m with
  | Ok a => f a
  | Raise e => Raise e
  end.
Global Instance result_fmap : FMap result := λ A B f m,
  match m with
  | Ok a => Ok (f a)
  | Raise e => Raise e
  end.

(** [try: body except PermissionError: pass], for a body that updates a
    local variable of type [S]: the body yields the value the variable has
    when it ends, and the exception that ended it if one did. *)
Definition except_PermissionError {S : Type} (body : S * option exn) : result S :=
  match body with
  | (s, None) => Ok s
  | (s, Some PermissionError) => Ok s
  | (_, Some e) => Raise e
  end.

(** ** [pathlib] paths

    An absolute POSIX path is the list of its components below [/]. *)

Abbreviation Path := (list string).

Module PurePath.

(** [path.name]: the last component, [''] for [/] *)
Definition name (p : Path) : string := default "" (last p).

(** [path / child] *)
Definition joinpath (p : Path) (child : string) : Path := p ++ [child].

Definition eqb (p q : Path) : bool := bool_decide (p = q).

Fixpoint strip_prefix (other p : Path) : option Path :=
  match other, p with
  | [], _ => Some p
  | o :: other', x :: p' =>
      if String.eqb o x then strip_prefix other' p' else None
  | _ :: _, [] => None
  end.

(** [path.relative_to(other)]: the components of the relative path, or
    [ValueError] when [path] is not below [other] *)
Definition relative_to (p other : Path) : result Path :=
  match strip_prefix other p with
  | Some rel => Ok rel
  | None => Raise ValueError
  end.

(** [str] of a relative path *)
Definition str (rel : Path) : string :=
  match rel with
  | [] => "."
  | _ => Str.join "/" rel
  end.

End PurePath.

Infix "/p" := PurePath.joinpath (at level 40, left associativity).

(** ** The filesystem

    What the traversals observe of the directory tree: a regular file
    ([is_file()]), a directory ([is_dir()]) with the outcome of listing it
    ([None] when [iterdir()] raises [PermissionError], else the children in
    the order the host returns them), or an entry that is neither (a socket,
    a FIFO, a dangling symbolic link).  On every entry the two tests
    return: an entry on which [is_dir()] and [is_file()] themselves raise
    [PermissionError] (an entry of a directory that can be listed but not
    searched) is not among these states, and is neither a regular file nor
    a directory of the model. *)

Unset Elimination Schemes.
Inductive node : Type :=
| File
| Special
| Dir (listing : option (list (string * node))).
Set Elimination Schemes.

Definition is_dir (n : node) : bool :=
  match n with Dir _ => true | _ => false end.

Definition is_file (n : node) : bool :=
  match n with File => true | _ => false end.

(** A child of a directory, as the loops over [path.iterdir()] see it: the
    [Path] object, what the filesystem holds there, and the value of the
    recursive call on it. *)
Record entry (R : Type) : Type := Entry {
  entry_path : Path;
  entry_node : node;
  entry_rec : R;
}.
Global Arguments Entry {R} _ _ _.
Global Arguments entry_path {R} _.
Global Arguments entry_node {R} _.
Global Arguments entry_rec {R} _.

(** ** [sorted(iterable, key=...)]: a stable sort by [<] on the keys *)

Section Sorted.
Context {A K : Type} (lt : K → K → bool) (key : A → K).

Fixpoint insort (x : A) (l : list A) : list A :=
  match l with
  | [] => [x]
  | y :: l' => if lt (key y) (key x) then y :: insort x l' else x :: y :: l'
  end.

Fixpoint sorted (l : list A) : list A :=
  match l with
  | [] => []
  | x :: l' => insort x (sorted l')
  end.
End Sorted.

(** [<] on the tuples [(x.is_file(), x.name.lower())]: [False < True] *)
Definition tuple_ltb (a b : bool * string) : bool :=
  if Bool.eqb a.1 b.1 then Str.ltb a.2 b.2 else negb a.1 && b.1.

(** ** The configuration: the attributes of [Code2MD] *)

Record Code2MD : Type := {
  include_files : option (list string);
  exclude_files : gset string;
  exclude_dirs : gset string;
  exclude_patterns : list string;
  root_dir : Path;
  output_file : string;
}.

(** ** The filter policy *)

(** The inner loop of [should_exclude_dir]:
    [for i in range(len(path_parts))], true when it returns [True]. *)
Definition partial_path_matches (relative_path pattern : string) : bool :=
  let path_parts := Str.split "/"%char relative_path in
  existsb
    (λ i, Fnmatch.fnmatch (Str.join "/" (take (i + 1) path_parts)) pattern)
    (seq 0 (length path_parts)).

(** The loop over [self.exclude_patterns] in [should_exclude_dir]: [true]
    when an iteration returns [True], [false] when the loop runs out. *)
Fixpoint dir_patterns (dir_name relative_path : string)
    (patterns : list string) : bool :=
  match patterns with
  | [] => false
  | pattern :: rest =>
      if Fnmatch.fnmatch dir_name pattern
         || Fnmatch.fnmatch relative_path pattern
      then true
      else if Str.contains "/"%char pattern
              && partial_path_matches relative_path pattern
      then true
      else dir_patterns dir_name relative_path rest
  end.

Definition should_exclude_dir (self : Code2MD) (dir_path : Path) : result bool :=
  if Str.startswith (PurePath.name dir_path) "." then Ok true
  else
    relative_path ← PurePath.str <$> PurePath.relative_to dir_path (root_dir self);
    if bool_decide (relative_path ∈ exclude_dirs self)
       || bool_decide (PurePath.name dir_path ∈ exclude_dirs self)
    then Ok true
    else Ok (dir_patterns (PurePath.name dir_path) relative_path
               (exclude_patterns self)).

(** The loop over [self.exclude_patterns] in [should_exclude_file]. *)
Fixpoint file_patterns (file_name rel_path_str : string)
    (patterns : list string) : bool :=
  match patterns with
  | [] => false
  | pattern :: rest =>
      if Fnmatch.fnmatch file_name pattern then true
      else if Fnmatch.fnmatch rel_path_str pattern then true
      else if Str.contains "/"%char pattern
              && Fnmatch.fnmatch rel_path_str pattern
      then true
      else file_patterns file_name rel_path_str rest
  end.

Definition should_exclude_file (self : Code2MD) (file_path : Path) : result bool :=
  if Str.startswith (PurePath.name file_path) "." then Ok true
  else if String.eqb (PurePath.name file_path) (output_file self) then Ok true
  else
    rel_path_str ← PurePath.str <$> PurePath.relative_to file_path (root_dir self);
    if bool_decide (rel_path_str ∈ exclude_files self) then Ok true
    else if file_patterns (PurePath.name file_path) rel_path_str
              (exclude_patterns self)
    then Ok true
    else match include_files self with
         | Some included => Ok (negb (bool_decide (rel_path_str ∈ included)))
         | None => Ok false
         end.

(** ** The tree renderer *)

Definition newline : string := String "010"%char EmptyString.

Definition connector (is_last : bool) : string :=
  if is_last then "└── " else "├── ".

(** The key of [sorted(path.iterdir(), key=lambda x: (x.is_file(), x.name.lower()))] *)
Definition tree_key {R : Type} (x : entry R) : bool * string :=
  (is_file (entry_node x), Str.lower (PurePath.name (entry_path x))).

(** The test of one entry in the filter loop: [should_exclude_dir] for a
    directory, [should_exclude_file] for anything else. *)
Definition entry_excluded {R : Type} (self : Code2MD) (entry : entry R) : result bool :=
  if is_dir (entry_node entry)
  then should_exclude_dir self (entry_path entry)
  else should_exclude_file self (entry_path entry).

(** The loop [for entry in all_entries] that fills [entries]. *)
Fixpoint filter_entries {R : Type} (self : Code2MD)
    (all_entries : list (entry R)) : result (list (entry R)) :=
  match all_entries with
  | [] => Ok []
  | entry :: rest =>
      excluded ← entry_excluded self entry;
      entries ← filter_entries self rest;
      Ok (if excluded : bool then entries else entry :: entries)
  end.

(** The loop [for i, entry in enumerate(entries)], from index [i] on, with
    [count = len(entries)]; it extends [tree_str]. *)
Fixpoint render_entries (count : nat) (new_prefix : string) (i : nat)
    (entries : list (entry (string → bool → result string)))
    (tree_str : string) : string * option exn :=
  match entries with
  | [] => (tree_str, None)
  | entry :: rest =>
      let is_last_entry := Nat.eqb i (count - 1) in
      match entry_rec entry new_prefix is_last_entry with
      | Ok sub => render_entries count new_prefix (S i) rest (tree_str +:+ sub)
      | Raise e => (tree_str, Some e)
      end
  end.

(** The body of the [try] block of [generate_tree_structure]. *)
Definition tree_try_body (self : Code2MD) (path : Path) (prefix : string)
    (is_last : bool)
    (iterdir : option (list (entry (string → bool → result string))))
    (tree_str : string) : string * option exn :=
  match iterdir with
  | None => (tree_str, Some PermissionError)
  | Some children =>
      let all_entries := sorted tuple_ltb tree_key children in
      match filter_entries self all_entries with
      | Raise e => (tree_str, Some e)
      | Ok entries =>
          let new_prefix :=
            if PurePath.eqb path (root_dir self) then ""
            else prefix +:+ (if is_last then "    " else "│   ") in
          render_entries (length entries) new_prefix 0 entries tree_str
      end
  end.

Fixpoint generate_tree_structure (self : Code2MD) (path : Path) (n : node)
    (prefix : string) (is_last : bool) {struct n} : result string :=
  let tree_str :=
    if PurePath.eqb path (root_dir self)
    then PurePath.name path +:+ "/" +:+ newline
    else prefix +:+ connector is_last +:+ PurePath.name path
         +:+ (if is_dir n then "/" else "") +:+ newline in
  match n with
  | Dir listing =>
      excluded ← should_exclude_dir self path;
      if excluded : bool then Ok tree_str
      else
        except_PermissionError
          (tree_try_body self path prefix is_last
             (match listing with
              | None => None
              | Some children =>
                  Some (map (λ child : string * node,
                               Entry (path /p child.1) child.2
                                 (generate_tree_structure self
                                    (path /p child.1) child.2))
                          children)
              end)
             tree_str)
  | _ => Ok tree_str
  end.

(** ** The file collector *)

(** The key of [sorted(path.iterdir(), key=lambda x: x.name.lower())] *)
Definition name_key {R : Type} (x : entry R) : string :=
  Str.lower (PurePath.name (entry_path x)).

(** The loop [for entry in sorted(...)]: [files.extend(...)] per entry. *)
Fixpoint extend_entries (entries : list (entry (result (list Path))))
    (files : list Path) : list Path * option exn :=
  match entries with
  | [] => (files, None)
  | entry :: rest =>
      match entry_rec entry with
      | Ok sub => extend_entries rest (files ++ sub)
      | Raise e => (files, Some e)
      end
  end.

(** The body of the [try] block of [collect_files]. *)
Definition collect_try_body
    (iterdir : option (list (entry (result (list Path)))))
    (files : list Path) : list Path * option exn :=
  match iterdir with
  | None => (files, Some PermissionError)
  | Some children => extend_entries (sorted Str.ltb name_key children) files
  end.

Fixpoint collect_files (self : Code2MD) (path : Path) (n : node)
    {struct n} : result (list Path) :=
  match n with
  | File =>
      excluded ← should_exclude_file self path;
      Ok (if excluded : bool then [] else [path])
  | Dir listing =>
      excluded ← should_exclude_dir self path;
      if excluded : bool then Ok []
      else
        except_PermissionError
          (collect_try_body
             (match listing with
              | None => None
              | Some children =>
                  Some (map (λ child : string * node,
                               Entry (path /p child.1) child.2
                                 (collect_files self (path /p child.1) child.2))
                          children)
              end)
             [])
  | Special => Ok []
  end.

(** ** The lines of the rendered tree

    [generate_tree_structure] returns one string; to speak of the entries it
    shows, [tree_lines] walks the tree the same way and keeps each line as a
    record.  [generate_tree_structure_lines] below shows that the string is
    the rendering of these lines. *)

Record line : Type := Line {
  line_prefix : string;
  line_is_last : bool;
  line_path : Path;
  line_is_dir : bool;
}.

Definition render_line (self : Code2MD) (l : line) : string :=
  if PurePath.eqb (line_path l) (root_dir self)
  then PurePath.name (line_path l) +:+ "/" +:+ newline
  else line_prefix l +:+ connector (line_is_last l)
       +:+ PurePath.name (line_path l)
       +:+ (if line_is_dir l then "/" else "") +:+ newline.

Definition render_lines (self : Code2MD) (ls : list line) : string :=
  foldr (λ l rest, render_line self l +:+ rest) "" ls.

(** A check that ran to its end and answered [False]. *)
Definition passes (check : result bool) : bool :=
  match check with
  | Ok false => true
  | _ => false
  end.

Definition child_prefix (self : Code2MD) (path : Path) (prefix : string)
    (is_last : bool) : string :=
  if PurePath.eqb path (root_dir self) then ""
  else prefix +:+ (if is_last then "    " else "│   ").

Fixpoint tree_lines (self : Code2MD) (path : Path) (n : node)
    (prefix : string) (is_last : bool) {struct n} : list line :=
  Line prefix is_last path (is_dir n) ::
  match n with
  | Dir (Some children) =>
      if passes (should_exclude_dir self path) then
        let entries :=
          List.filter (λ e, passes (entry_excluded self e))
            (sorted tuple_ltb tree_key
               (map (λ child : string * node,
                       Entry (path /p child.1) child.2
                         (tree_lines self (path /p child.1) child.2))
                  children)) in
        concat (imap (λ i e, entry_rec e (child_prefix self path prefix is_last)
                               (Nat.eqb i (length entries - 1)))
                  entries)
      else []
  | _ => []
  end.

Definition paths_of (keep : line → bool) (ls : list line) : list Path :=
  line_path <$> List.filter keep ls.

(** The paths shown as file lines (no trailing [/]). *)
Definition file_paths (ls : list line) : list Path :=
  paths_of (λ l, negb (line_is_dir l)) ls.

(** The paths shown as directory lines. *)
Definition dir_paths (ls : list line) : list Path :=
  paths_of line_is_dir ls.

(** ** Notions used in the statements *)

(** A path at or below the traversal root. *)
Definition under_root (self : Code2MD) (p : Path) : Prop :=
  root_dir self `prefix_of` p.

(** The children of a directory as the loops see them, without the
    recursive call: the name and the node. *)
Definition child_excluded (self : Code2MD) (path : Path)
    (child : string * node) : result bool :=
  if is_dir child.2 then should_exclude_dir self (path /p child.1)
  else should_exclude_file self (path /p child.1).

Definition child_tree_key (child : string * node) : bool * string :=
  (is_file child.2, Str.lower child.1).

Definition child_name_key (child : string * node) : string :=
  Str.lower child.1.

(** The children of [path] that [generate_tree_structure] renders, in
    rendering order. *)
Definition tree_children (self : Code2MD) (path : Path)
    (children : list (string * node)) : list (string * node) :=
  List.filter (λ child, passes (child_excluded self path child))
    (sorted tuple_ltb child_tree_key children).

(** The children of a directory in the order [collect_files] visits them. *)
Definition collect_children (children : list (string * node)) :
    list (string * node) :=
  sorted Str.ltb child_name_key children.



(** The exclusion rules of [should_exclude_file] that come before the
    include list: hidden name, output name, exclude list, patterns. *)
Definition file_exclusion_rules (self : Code2MD) (file_name rel : string) : bool :=
  Str.startswith file_name "."
  || String.eqb file_name (output_file self)
  || bool_decide (rel ∈ exclude_files self)
  || existsb (λ pattern, Fnmatch.fnmatch file_name pattern
                         || Fnmatch.fnmatch rel pattern)
       (exclude_patterns self).

(** The path prefixes [a], [a/b], [a/b/c], ... of a relative path. *)
Definition path_prefixes (rel : Path) : list string :=
  (λ k, Str.join "/" (take k rel)) <$> seq 1 (length rel).

(** A path component: no separator inside. *)
Definition component (s : string) : Prop := Str.contains "/"%char s = false.

(** Every entry is a regular file or a directory. *)
Fixpoint regular (n : node) : bool :=
  match n with
  | File => true
  | Special => false
  | Dir None => true
  | Dir (Some children) => forallb (λ child : string * node, regular child.2) children
  end.

(** [isFileVisible] and [isDirectoryVisible] of the specification: the
    negations of the two predicates. *)
Definition is_file_visible (self : Code2MD) (p : Path) : result bool :=
  negb <$> should_exclude_file self p.

Definition is_directory_visible (self : Code2MD) (p : Path) : result bool :=
  negb <$> should_exclude_dir self p.

(** ** The list [collect_files] builds

    The same walk as [collect_files], for the case where no check raises:
    [collect_files_collected] below shows that this is what [collect_files]
    returns below the root. *)
Fixpoint collected (self : Code2MD) (path : Path) (n : node) {struct n} : list Path :=
  match n with
  | File => if passes (should_exclude_file self path) then [path] else []
  | Special => []
  | Dir None => []
  | Dir (Some children) =>
      if passes (should_exclude_dir self path) then
        concat (map entry_rec
                  (sorted Str.ltb name_key
                     (map (λ child : string * node,
                             Entry (path /p child.1) child.2
                               (collected self (path /p child.1) child.2))
                        children)))
      else []
  end.

(** The check a traversal applies to an entry, by its type. *)
Definition node_excluded (self : Code2MD) (path : Path) (n : node) : result bool :=
  if is_dir n then should_exclude_dir self path
  else should_exclude_file self path.

(** [enumerate(l)] *)
Definition enumerate {A : Type} (l : list A) : list (nat * A) := imap pair l.

(** ** Statements that are tested against the program *)

(** "The root is never subjected to the filter policy": whatever
    [should_exclude_dir] answers on the root, the tree shows the root line
    followed by the root's filtered children, and the collector returns the
    files found through the root's children. *)
Definition root_never_filtered (self : Code2MD)
    (children : list (string * node)) : Prop :=
  let root := root_dir self in
  generate_tree_structure self root (Dir (Some children)) "" true
  = Ok (render_lines self
          (Line "" true root true ::
           concat (imap (λ i child,
                           tree_lines self (root /p child.1) child.2 ""
                             (Nat.eqb i (length (tree_children self root children) - 1)))
                     (tree_children self root children))))
  ∧ collect_files self root (Dir (Some children))
    = Ok (concat (map (λ child, collected self (root /p child.1) child.2)
                    (collect_children children))).


(** ** Sample configurations and trees *)

Definition default_config (root : Path) : Code2MD :=
  {| include_files := None;
     exclude_files := ∅;
     exclude_dirs := ∅;
     exclude_patterns := [];
     root_dir := root;
     output_file := "code2md_output.md" |}.

(** A project kept in a hidden directory. *)
Definition hidden_root_config : Code2MD := default_config ["home"; ".dotfiles"].

Definition one_file : list (string * node) := [("a.txt", File)].

(** A directory holding a FIFO next to a regular file. *)
Definition fifo_tree : node := Dir (Some [("pipe", Special); ("a.txt", File)]).

(** A file that sorts before a directory by name. *)
Definition straddle_tree : list (string * node) :=
  [("a.txt", File); ("b", Dir (Some [("x.py", File)]))].

(** A tree with an unreadable directory between readable entries. *)
Definition locked_tree : node :=
  Dir (Some [("a", Dir (Some [("x.py", File)]));
             ("locked", Dir None);
             ("z.txt", File)]).

(** A configuration with every rule set; the include list names the output
    file as well. *)
Definition full_config : Code2MD :=
  {| include_files := Some ["src/main.py"; "out.md"];
     exclude_files := {["src/skip.py"]};
     exclude_dirs := {["node_modules"]};
     exclude_patterns := ["*.log"; "build/su?"];
     root_dir := ["proj"];
     output_file := "out.md" |}.

(** [full_config] without its include list. *)
Definition open_config : Code2MD :=
  {| include_files := None;
     exclude_files := {["src/skip.py"]};
     exclude_dirs := {["node_modules"]};
     exclude_patterns := ["*.log"; "build/su?"];
     root_dir := ["proj"];
     output_file := "out.md" |}.

(** ** More of [str]: [strip] *)

Module Strip.

(** [c.isspace()] on the ASCII characters: tab to carriage return, the four
    separators 28 to 31, and the space. *)
Definition isspace (c : ascii) : bool :=
  let n := N_of_ascii c in
  ((9 <=? n)%N && (n <=? 13)%N) || ((28 <=? n)%N && (n <=? 32)%N).

(** [s.lstrip()] *)
Fixpoint lstrip (s : string) : string :=
  match s with
  | EmptyString => EmptyString
  | String c s' => if isspace c then lstrip s' else s
  end.

(** [s.rstrip()] *)
Fixpoint rstrip (s : string) : string :=
  match s with
  | EmptyString => EmptyString
  | String c s' =>
      match rstrip s' with
      | EmptyString => if isspace c then EmptyString else String c EmptyString
      | r => String c r
      end
  end.

(** [s.strip()] *)
Definition strip (s : string) : string := rstrip (lstrip s).

End Strip.

(** No white space at the head. *)
Definition no_lead (s : string) : Prop :=
  match s with
  | EmptyString => True
  | String c _ => Strip.isspace c = false
  end.

(** The truth value of a [str]: false for the empty string only. *)
Definition truthy (s : string) : bool :=
  match s with
  | EmptyString => false
  | String _ _ => true
  end.

(** ** [parse_list_argument] *)

Definition parse_list_argument (value : string) : list string :=
  Strip.strip <$>
    List.filter (λ item, truthy (Strip.strip item)) (Str.split ","%char value).

(** An item as [parse_list_argument] returns them: not empty, no comma, no
    white space at either end. *)
Definition list_item (s : string) : Prop :=
  s ≠ EmptyString ∧ Str.contains ","%char s = false ∧ Strip.strip s = s.

(** ** [read_file_content]

    What [open(file_path, "r", encoding="utf-8")] and [f.read()] give: the
    text, a [UnicodeDecodeError], or another exception with its message
    [str(e)]. *)

Inductive read_outcome : Type :=
| ReadText (content : string)
| ReadUndecodable
| ReadFailed (message : string).

Definition read_file_content (open_file : Path → read_outcome)
    (file_path : Path) : string :=
  match open_file file_path with
  | ReadText content => content
  | ReadUndecodable => "[Binary file - content not displayed]"
  | ReadFailed message => "[Error reading file: " +:+ message +:+ "]"
  end.

(** ** [generate_markdown] *)

Definition fence : string := "```".

(** The text one pass of the loop [for file_path in all_files] adds. *)
Definition file_section (relative_path content : string) : string :=
  relative_path +:+ newline +:+ fence +:+ newline +:+ content
  +:+ newline +:+ fence +:+ newline +:+ newline.

(** The loop [for file_path in all_files]; it extends [markdown_content]. *)
Fixpoint markdown_files (self : Code2MD) (open_file : Path → read_outcome)
    (all_files : list Path) (markdown_content : string) : result string :=
  match all_files with
  | [] => Ok markdown_content
  | file_path :: rest =>
      relative_path ← PurePath.relative_to file_path (root_dir self);
      let content := read_file_content open_file file_path in
      markdown_files self open_file rest
        (markdown_content +:+ file_section (PurePath.str relative_path) content)
  end.

Definition markdown_header : string :=
  "Following is a directory tree and file contents." +:+ newline +:+ newline.

(** [n] is what the filesystem holds at [self.root_dir]. *)
Definition generate_markdown (self : Code2MD) (n : node)
    (open_file : Path → read_outcome) : result string :=
  tree_structure ← generate_tree_structure self (root_dir self) n "" true;
  all_files ← collect_files self (root_dir self) n;
  markdown_files self open_file all_files
    (markdown_header +:+ fence +:+ newline +:+ tree_structure
     +:+ fence +:+ newline +:+ newline).

(** ** Entries of the tree by relative path *)

(** The entries found by walking the names [rel] down from [n] (one at
    most when the names of every listing are distinct). *)
Fixpoint entries_at (n : node) (rel : list string) {struct rel} : list node :=
  match rel with
  | [] => [n]
  | name :: rel' =>
      match n with
      | Dir (Some children) =>
          concat (map (λ child : string * node,
                         if String.eqb child.1 name
                         then entries_at child.2 rel' else [])
                    children)
      | _ => []
      end
  end.

(** Every directory on the way from [path] down to, and without, the entry
    at [path ++ rel] passes [should_exclude_dir]. *)
Definition ancestors_pass (self : Code2MD) (path : Path) (rel : list string) : bool :=
  forallb (λ k, passes (should_exclude_dir self (path ++ take k rel)))
    (seq 0 (length rel)).

(** The names in every listing are distinct, as on a filesystem. *)
Fixpoint unique_names (n : node) : bool :=
  match n with
  | Dir (Some children) =>
      bool_decide (NoDup children.*1)
      && forallb (λ child : string * node, unique_names child.2) children
  | _ => true
  end.

(** ** The rules of [should_exclude_dir], as one disjunction *)

Definition dir_exclusion_rules (self : Code2MD) (dir_name : string)
    (rel : Path) : bool :=
  Str.startswith dir_name "."
  || bool_decide (PurePath.str rel ∈ exclude_dirs self)
  || bool_decide (dir_name ∈ exclude_dirs self)
  || existsb
       (λ pattern,
          Fnmatch.fnmatch dir_name pattern
          || Fnmatch.fnmatch (PurePath.str rel) pattern
          || Str.contains "/"%char pattern
             && existsb (λ partial_path, Fnmatch.fnmatch partial_path pattern)
                  (path_prefixes rel))
       (exclude_patterns self).

(** The include-list test of [should_exclude_file]: [true] when the list is
    set and does not hold the relative path. *)
Definition not_included (self : Code2MD) (rel : string) : bool :=
  match include_files self with
  | Some included => negb (bool_decide (rel ∈ included))
  | None => false
  end.


(** ** The configuration [main] builds

    What [parser.parse_args()] hands to [main] for the options: the raw
    text of each option that was given on the command line ([None] for an
    option left out), and the directory argument already resolved.
    [argparse] passes the raw text of an option through its [type], here
    [parse_list_argument], and takes the [default] for an option left
    out. *)
Record Args : Type := {
  arg_directory : Path;
  arg_include_files : option string;
  arg_exclude_files : option string;
  arg_exclude_dirs : option string;
  arg_exclude_patterns : option string;
  arg_output : option string;
}.

(** The assignments of [main] to the attributes of the [Code2MD] instance. *)
Definition configure (args : Args) : Code2MD :=
  {| root_dir := arg_directory args;
     include_files := parse_list_argument <$> arg_include_files args;
     exclude_files :=
       list_to_set (default [] (parse_list_argument <$> arg_exclude_files args));
     exclude_dirs :=
       list_to_set (default [] (parse_list_argument <$> arg_exclude_dirs args));
     exclude_patterns :=
       default [] (parse_list_argument <$> arg_exclude_patterns args);
     output_file := default "code2md_output.md" (arg_output args) |}.

(** One level of indentation in the tree: four columns, blank or with the
    vertical bar of a directory that has further entries. *)
Definition is_segment (s : string) : bool :=
  String.eqb s "    " || String.eqb s "│   ".

(** ** More sample inputs *)

(** [code2md /proj --exclude-dirs " build , dist " --include-files " , "] *)
Definition sample_args : Args :=
  {| arg_directory := ["proj"];
     arg_include_files := Some " , ";
     arg_exclude_files := None;
     arg_exclude_dirs := Some " build , dist ";
     arg_exclude_patterns := None;
     arg_output := None |}.

Definition node_modules : string * node :=
  ("node_modules", Dir (Some [("m.js", File)])).

(** ** Unreadable directories as empty ones *)

(** The same tree with every unreadable directory turned into a readable,
    empty one. *)
Fixpoint unlock (n : node) : node :=
  match n with
  | Dir None => Dir (Some [])
  | Dir (Some children) =>
      Dir (Some (map (λ child : string * node, (child.1, unlock child.2))
                   children))
  | _ => n
  end.

(** A regular file or a directory, readable or not. *)
Definition file_or_dir (n : node) : bool := is_file n || is_dir n.

(** * Properties *)

(** Evaluate the monad operations of [result], and nothing else. *)
Ltac simpl_result :=
  cbn [mbind result_bind fmap result_fmap mret result_ret].

(** ** Paths *)

Lemma name_joinpath (p : Path) (child : string) :
  PurePath.name (p /p child) = child.
Proof. unfold PurePath.name, PurePath.joinpath. by rewrite last_snoc. Qed.

Lemma strip_prefix_app (other rel : Path) :
  PurePath.strip_prefix other (other ++ rel) = Some rel.
Proof.
  induction other as [|o other IH]; simpl; [done|].
  by rewrite String.eqb_refl.
Qed.

Lemma relative_to_under_root (self : Code2MD) (p : Path) :
  under_root self p →
  ∃ rel, p = root_dir self ++ rel ∧
         PurePath.relative_to p (root_dir self) = Ok rel.
Proof.
  intros [rel ->]. exists rel. split; [done|].
  unfold PurePath.relative_to. by rewrite strip_prefix_app.
Qed.

Lemma relative_to_self (p : Path) : PurePath.relative_to p p = Ok [].
Proof.
  unfold PurePath.relative_to.
  pose proof (strip_prefix_app p []) as H. rewrite app_nil_r in H.
  by rewrite H.
Qed.

Lemma under_root_root (self : Code2MD) : under_root self (root_dir self).
Proof. by exists []; rewrite app_nil_r. Qed.

Lemma under_root_joinpath (self : Code2MD) (p : Path) (child : string) :
  under_root self p → under_root self (p /p child).
Proof.
  intros [rel ->]. exists (rel ++ [child]).
  unfold PurePath.joinpath. by rewrite <-(assoc_L (++)).
Qed.

Lemma joinpath_not_root (self : Code2MD) (p : Path) (child : string) :
  under_root self p → PurePath.eqb (p /p child) (root_dir self) = false.
Proof.
  intros [rel ->]. unfold PurePath.eqb, PurePath.joinpath.
  apply bool_decide_eq_false. intros H.
  apply (f_equal length) in H. rewrite !length_app in H. simpl in H. lia.
Qed.

(** ** The filter policy never raises below the root *)

Lemma should_exclude_dir_total (self : Code2MD) (p : Path) :
  under_root self p → ∃ b, should_exclude_dir self p = Ok b.
Proof.
  intros (rel & _ & Hrel)%relative_to_under_root.
  unfold should_exclude_dir. rewrite Hrel. simpl.
  repeat case_match; eauto.
Qed.

Lemma should_exclude_file_total (self : Code2MD) (p : Path) :
  under_root self p → ∃ b, should_exclude_file self p = Ok b.
Proof.
  intros (rel & _ & Hrel)%relative_to_under_root.
  unfold should_exclude_file. rewrite Hrel. simpl.
  repeat case_match; eauto.
Qed.

Lemma should_exclude_outside_root :
  should_exclude_dir
    {| include_files := None; exclude_files := ∅; exclude_dirs := ∅;
       exclude_patterns := []; root_dir := ["srv"; "proj"];
       output_file := "code2md_output.md" |} ["tmp"; "other"]
  = Raise ValueError.
Proof. reflexivity. Qed.

(** ** The pattern loops *)

Lemma file_patterns_existsb (file_name rel : string) (patterns : list string) :
  file_patterns file_name rel patterns
  = existsb (λ pattern, Fnmatch.fnmatch file_name pattern
                        || Fnmatch.fnmatch rel pattern) patterns.
Proof.
  induction patterns as [|pattern rest IH]; simpl; [done|].
  rewrite IH.
  destruct (Fnmatch.fnmatch file_name pattern); simpl; [done|].
  destruct (Fnmatch.fnmatch rel pattern); simpl; [done|].
  by rewrite andb_false_r.
Qed.

Lemma dir_patterns_true (dir_name rel pattern : string) (patterns : list string) :
  pattern ∈ patterns →
  Fnmatch.fnmatch dir_name pattern
  || Fnmatch.fnmatch rel pattern
  || Str.contains "/"%char pattern && partial_path_matches rel pattern = true →
  dir_patterns dir_name rel patterns = true.
Proof.
  intros Hin Hm.
  induction patterns as [|q rest IH]; [by apply elem_of_nil in Hin|].
  simpl. apply elem_of_cons in Hin as [<-|Hin].
  - destruct (Fnmatch.fnmatch dir_name pattern || Fnmatch.fnmatch rel pattern);
      simpl in *; [done|]. by rewrite Hm.
  - rewrite (IH Hin). by repeat case_match.
Qed.

(** ** [split] undoes [join] on path components *)

Lemma split_component (s : string) :
  component s → Str.split "/"%char s = [s].
Proof.
  unfold component. induction s as [|c s IH]; simpl; [done|].
  intros [Hc Hs]%orb_false_iff. rewrite Hc, (IH Hs). done.
Qed.

Lemma split_append (s rest : string) :
  component s →
  Str.split "/"%char (s +:+ "/" +:+ rest) = s :: Str.split "/"%char rest.
Proof.
  unfold component. induction s as [|c s IH]; simpl; [done|].
  intros [Hc Hs]%orb_false_iff. rewrite Hc. cbn [String.append] in IH.
  by rewrite (IH Hs).
Qed.

Lemma split_join (parts : Path) :
  Forall component parts → parts ≠ [] →
  Str.split "/"%char (Str.join "/" parts) = parts.
Proof.
  unfold Str.join.
  induction 1 as [|s parts Hs Hparts IH]; [done|]. intros _.
  destruct parts as [|s' parts]; simpl.
  - by apply split_component.
  - rewrite split_append by done. f_equal. by apply IH.
Qed.

Lemma partial_path_matches_prefix (rel : Path) (partial_path pattern : string) :
  Forall component rel →
  partial_path ∈ path_prefixes rel →
  Fnmatch.fnmatch partial_path pattern = true →
  partial_path_matches (PurePath.str rel) pattern = true.
Proof.
  intros Hrel Hin Hm. unfold path_prefixes in Hin.
  apply list_elem_of_fmap in Hin as (k & -> & Hk).
  apply elem_of_seq in Hk.
  assert (rel ≠ []) as Hne by (intros ->; simpl in Hk; lia).
  unfold partial_path_matches.
  replace (PurePath.str rel) with (Str.join "/" rel) by by destruct rel.
  rewrite split_join by done.
  apply existsb_exists. exists (k - 1). split.
  - apply in_seq. lia.
  - by replace (k - 1 + 1) with k by lia.
Qed.

(** ** The filter policy: claims about single entries *)

(** C9: a directory whose bare name starts with a dot is excluded,
    whatever the configuration holds; the test comes first and needs no
    relative path. *)
Theorem hidden_dir_excluded (self : Code2MD) (dir_path : Path) :
  Str.startswith (PurePath.name dir_path) "." = true →
  should_exclude_dir self dir_path = Ok true
  ∧ is_directory_visible self dir_path = Ok false.
Proof.
  intros Hdot. unfold is_directory_visible, should_exclude_dir.
  by rewrite Hdot.
Qed.

(** C3: a file whose bare name is the output filename is excluded, whatever
    the rest of the configuration, the include list included. *)
Theorem output_file_excluded (self : Code2MD) (file_path : Path) :
  PurePath.name file_path = output_file self →
  should_exclude_file self file_path = Ok true
  ∧ is_file_visible self file_path = Ok false.
Proof.
  intros Hname. unfold is_file_visible, should_exclude_file.
  rewrite Hname, String.eqb_refl. by case_match.
Qed.

(** C2: with an include list set, a file below the root is visible exactly
    when no exclusion rule (hidden name, output name, exclude list, pattern)
    catches it and its relative path is in the list: for a file that the
    exclusion rules let through, visibility is membership in the list, and
    a file they catch stays invisible whatever the list holds. *)
Theorem include_files_dominance
    (self : Code2MD) (file_path rel : Path) (included : list string) :
  PurePath.relative_to file_path (root_dir self) = Ok rel →
  include_files self = Some included →
  is_file_visible self file_path
  = Ok (negb (file_exclusion_rules self (PurePath.name file_path) (PurePath.str rel))
        && bool_decide (PurePath.str rel ∈ included)).
Proof.
  intros Hrel Hinc.
  unfold is_file_visible, should_exclude_file, file_exclusion_rules.
  rewrite Hrel, Hinc. simpl_result. rewrite file_patterns_existsb.
  destruct (Str.startswith _ _); [done|].
  destruct (String.eqb _ _); [done|].
  destruct (bool_decide (_ ∈ exclude_files self)); [done|].
  destruct (existsb _ _); [done|].
  simpl. by rewrite negb_involutive.
Qed.

(** C7: for a path at or below the root both predicates return a boolean;
    [relative_to] does not raise there. *)
Theorem policy_never_raises (self : Code2MD) (p : Path) :
  under_root self p →
  (∃ rel, PurePath.relative_to p (root_dir self) = Ok rel)
  ∧ (∃ b, should_exclude_dir self p = Ok b)
  ∧ (∃ b, should_exclude_file self p = Ok b).
Proof.
  intros Hp. split_and!.
  - apply relative_to_under_root in Hp as (rel & _ & ?). eauto.
  - by apply should_exclude_dir_total.
  - by apply should_exclude_file_total.
Qed.

(** C4: a directory below the root is excluded when a configured pattern
    matches its bare name or its whole relative path, and also when a
    configured pattern holding a [/] matches one of the path prefixes
    [a], [a/b], [a/b/c], ... of its relative path. *)
Theorem dir_pattern_prefix_excluded
    (self : Code2MD) (dir_path rel : Path) (pattern : string) :
  PurePath.relative_to dir_path (root_dir self) = Ok rel →
  Forall component rel →
  pattern ∈ exclude_patterns self →
  Fnmatch.fnmatch (PurePath.name dir_path) pattern = true
  ∨ Fnmatch.fnmatch (PurePath.str rel) pattern = true
  ∨ (Str.contains "/"%char pattern = true
     ∧ ∃ partial_path, partial_path ∈ path_prefixes rel
                       ∧ Fnmatch.fnmatch partial_path pattern = true) →
  should_exclude_dir self dir_path = Ok true.
Proof.
  intros Hrel Hcomp Hin Hmatch.
  unfold should_exclude_dir. rewrite Hrel. simpl_result.
  rewrite (dir_patterns_true _ _ pattern); [by repeat case_match|done|].
  destruct Hmatch as [->|[->|(-> & partial_path & Hpre & Hm)]];
    [done|by rewrite orb_true_r|].
  rewrite (partial_path_matches_prefix rel partial_path) by done.
  by rewrite orb_true_r.
Qed.

(** ** Strings *)

Lemma append_nil_r (s : string) : s +:+ "" = s.
Proof.
  induction s as [|c s IH]; [done|].
  change (String c (s +:+ "") = String c s). by rewrite IH.
Qed.

Lemma append_assoc (s1 s2 s3 : string) : (s1 +:+ s2) +:+ s3 = s1 +:+ s2 +:+ s3.
Proof.
  induction s1 as [|c s1 IH]; [done|].
  change (String c ((s1 +:+ s2) +:+ s3) = String c (s1 +:+ s2 +:+ s3)).
  by rewrite IH.
Qed.

Lemma ltb_asym (a b : string) : Str.ltb a b = true → Str.ltb b a = false.
Proof.
  unfold Str.ltb, String.ltb. rewrite (String.compare_antisym b a).
  by destruct (String.compare a b).
Qed.

Lemma ltb_false_le (a b : string) : Str.ltb b a = false ↔ String.le a b.
Proof.
  unfold Str.ltb, String.ltb, String.le, String.leb.
  rewrite (String.compare_antisym b a).
  destruct (String.compare a b); simpl; intuition congruence.
Qed.

Lemma ltb_le_trans (a b c : string) :
  Str.ltb b a = false → Str.ltb c b = false → Str.ltb c a = false.
Proof. rewrite !ltb_false_le. apply transitivity. Qed.

Lemma tuple_ltb_asym (a b : bool * string) :
  tuple_ltb a b = true → tuple_ltb b a = false.
Proof.
  destruct a as [[] s], b as [[] t]; unfold tuple_ltb; simpl;
    try done; apply ltb_asym.
Qed.

Lemma tuple_le_trans (a b c : bool * string) :
  tuple_ltb b a = false → tuple_ltb c b = false → tuple_ltb c a = false.
Proof.
  destruct a as [[] s], b as [[] t], c as [[] u]; unfold tuple_ltb; simpl;
    try done; apply ltb_le_trans.
Qed.

(** ** Facts about [sorted] *)

Section SortedFacts.
Context {A K : Type} (lt : K → K → bool) (key : A → K).

Lemma insort_perm (x : A) (l : list A) : insort lt key x l ≡ₚ x :: l.
Proof.
  induction l as [|y l IH]; simpl; [done|].
  case_match; [|done]. rewrite IH. apply Permutation_swap.
Qed.

Lemma sorted_perm (l : list A) : sorted lt key l ≡ₚ l.
Proof.
  induction l as [|x l IH]; simpl; [done|].
  by rewrite insort_perm, IH.
Qed.

Lemma elem_of_sorted (x : A) (l : list A) : x ∈ sorted lt key l ↔ x ∈ l.
Proof. by rewrite sorted_perm. Qed.

Lemma sorted_map_key {B : Type} (f : B → A) (key' : B → K) (l : list B) :
  (∀ x, key (f x) = key' x) →
  sorted lt key (map f l) = map f (sorted lt key' l).
Proof.
  intros Hkey. induction l as [|x l IH]; simpl; [done|]. rewrite IH.
  generalize (sorted lt key' l). intros k.
  induction k as [|y k IHk]; simpl; [done|].
  rewrite !Hkey. case_match; simpl; [by rewrite IHk|done].
Qed.

Lemma insort_front (x : A) (l : list A) :
  Forall (λ z, lt (key z) (key x) = false) l → insort lt key x l = x :: l.
Proof. destruct 1 as [|y l Hy _]; simpl; [done|]. by rewrite Hy. Qed.

Hypothesis lt_asym : ∀ a b, lt a b = true → lt b a = false.
Hypothesis le_trans :
  ∀ a b c, lt b a = false → lt c b = false → lt c a = false.

Let le (a b : A) : Prop := lt (key b) (key a) = false.

Lemma insort_StronglySorted (x : A) (l : list A) :
  StronglySorted le l → StronglySorted le (insort lt key x l).
Proof using lt_asym le_trans.
  induction 1 as [|y l Hl IH Hy]; simpl.
  - repeat constructor.
  - destruct (lt (key y) (key x)) eqn:Hyx.
    + constructor; [done|]. rewrite insort_perm.
      constructor; [by apply lt_asym|done].
    + constructor; [by constructor|].
      constructor; [done|].
      eapply Forall_impl; [exact Hy|]. intros z Hz.
      by apply (le_trans _ (key y)).
Qed.

Lemma sorted_StronglySorted (l : list A) : StronglySorted le (sorted lt key l).
Proof using lt_asym le_trans.
  induction l as [|x l IH]; simpl; [constructor|].
  by apply insort_StronglySorted.
Qed.

Lemma filter_insort (P : A → bool) (x : A) (l : list A) :
  StronglySorted le l →
  List.filter P (insort lt key x l)
  = if P x then insort lt key x (List.filter P l) else List.filter P l.
Proof using le_trans.
  induction 1 as [|y l Hl IH Hy]; simpl.
  - by destruct (P x).
  - destruct (lt (key y) (key x)) eqn:Hyx; simpl.
    + rewrite IH. destruct (P x), (P y); simpl; by rewrite ?Hyx.
    + destruct (P x) eqn:Hx, (P y) eqn:Hpy; simpl; rewrite ?Hyx; try done.
      symmetry. apply insort_front.
      apply Forall_forall. intros z [Hz%list_elem_of_In _]%list_elem_of_In%filter_In.
      apply (le_trans _ (key y)); [done|].
      by apply (proj1 (Forall_forall _ _) Hy).
Qed.

Lemma filter_sorted (P : A → bool) (l : list A) :
  List.filter P (sorted lt key l) = sorted lt key (List.filter P l).
Proof using lt_asym le_trans.
  induction l as [|x l IH]; simpl; [done|].
  rewrite filter_insort by apply sorted_StronglySorted.
  destruct (P x); simpl; by rewrite IH.
Qed.

End SortedFacts.

(** ** Induction on the filesystem tree *)

Lemma node_ind (P : node → Prop) :
  P File → P Special → P (Dir None) →
  (∀ children, Forall (λ child : string * node, P child.2) children →
               P (Dir (Some children))) →
  ∀ n, P n.
Proof.
  intros HF HS HN HD. fix IH 1. intros [| |[children|]]; [done|done| |done].
  apply HD. revert children. fix go 1.
  intros [|child children]; constructor; [apply IH|apply go].
Qed.

(** ** The loops over the children, without the recursive calls *)

Lemma tree_key_entry {R : Type} (path : Path) (child : string * node) (r : R) :
  tree_key (Entry (path /p child.1) child.2 r) = child_tree_key child.
Proof. unfold tree_key, child_tree_key. simpl. by rewrite name_joinpath. Qed.

Lemma name_key_entry {R : Type} (path : Path) (child : string * node) (r : R) :
  name_key (Entry (path /p child.1) child.2 r) = child_name_key child.
Proof. unfold name_key, child_name_key. simpl. by rewrite name_joinpath. Qed.

Lemma tree_entries_children {R : Type} (self : Code2MD) (path : Path)
    (rec : string * node → R) (children : list (string * node)) :
  List.filter (λ e, passes (entry_excluded self e))
    (sorted tuple_ltb tree_key
       (map (λ child, Entry (path /p child.1) child.2 (rec child)) children))
  = map (λ child, Entry (path /p child.1) child.2 (rec child))
      (tree_children self path children).
Proof.
  rewrite (sorted_map_key _ _ _ child_tree_key)
    by (intros child; apply tree_key_entry).
  by rewrite filter_map_swap.
Qed.

Lemma collect_entries_children {R : Type} (path : Path)
    (rec : string * node → R) (children : list (string * node)) :
  sorted Str.ltb name_key
    (map (λ child, Entry (path /p child.1) child.2 (rec child)) children)
  = map (λ child, Entry (path /p child.1) child.2 (rec child))
      (collect_children children).
Proof.
  apply sorted_map_key. intros child. apply name_key_entry.
Qed.

Lemma elem_of_tree_children (self : Code2MD) (path : Path)
    (children : list (string * node)) (child : string * node) :
  child ∈ tree_children self path children
  ↔ child ∈ children ∧ passes (child_excluded self path child) = true.
Proof.
  unfold tree_children.
  by rewrite list_elem_of_In, filter_In, <-list_elem_of_In, elem_of_sorted.
Qed.

Lemma elem_of_collect_children (children : list (string * node))
    (child : string * node) :
  child ∈ collect_children children ↔ child ∈ children.
Proof. apply elem_of_sorted. Qed.

(** The equations of [tree_lines] and [collected] at a listed directory. *)
Lemma tree_lines_dir (self : Code2MD) (path : Path)
    (children : list (string * node)) (prefix : string) (is_last : bool) :
  tree_lines self path (Dir (Some children)) prefix is_last
  = Line prefix is_last path true ::
    if passes (should_exclude_dir self path) then
      concat (imap (λ i child,
                      tree_lines self (path /p child.1) child.2
                        (child_prefix self path prefix is_last)
                        (Nat.eqb i (length (tree_children self path children) - 1)))
                (tree_children self path children))
    else [].
Proof.
  cbn [tree_lines is_dir]. f_equal. case_match; [|done].
  rewrite (tree_entries_children self path
             (λ child, tree_lines self (path /p child.1) child.2)).
  by rewrite length_map, imap_fmap.
Qed.

Lemma collected_dir (self : Code2MD) (path : Path)
    (children : list (string * node)) :
  collected self path (Dir (Some children))
  = if passes (should_exclude_dir self path) then
      concat (map (λ child, collected self (path /p child.1) child.2)
                (collect_children children))
    else [].
Proof.
  cbn [collected]. case_match; [|done].
  rewrite (collect_entries_children path
             (λ child, collected self (path /p child.1) child.2)).
  by rewrite map_map.
Qed.

(** ** The traversals return, below the root *)

Lemma render_lines_app (self : Code2MD) (ls1 ls2 : list line) :
  render_lines self (ls1 ++ ls2)
  = render_lines self ls1 +:+ render_lines self ls2.
Proof.
  induction ls1 as [|l ls1 IH]; simpl; [done|].
  by rewrite IH, append_assoc.
Qed.

Lemma entry_excluded_total {R : Type} (self : Code2MD) (e : entry R) :
  under_root self (entry_path e) → ∃ b, entry_excluded self e = Ok b.
Proof.
  intros He. unfold entry_excluded. case_match;
    [by apply should_exclude_dir_total|by apply should_exclude_file_total].
Qed.

Lemma filter_entries_ok {R : Type} (self : Code2MD) (es : list (entry R)) :
  Forall (λ e, under_root self (entry_path e)) es →
  filter_entries self es
  = Ok (List.filter (λ e, passes (entry_excluded self e)) es).
Proof.
  induction 1 as [|e es He Hes IH]; simpl; [done|].
  destruct (entry_excluded_total self e He) as [b Hb].
  rewrite Hb, IH. simpl_result. by destruct b.
Qed.

Lemma render_entries_ok (self : Code2MD) (path : Path) (new_prefix : string)
    (count : nat) (l : list (string * node)) :
  Forall (λ child : string * node, ∀ prefix b,
            generate_tree_structure self (path /p child.1) child.2 prefix b
            = Ok (render_lines self
                    (tree_lines self (path /p child.1) child.2 prefix b))) l →
  ∀ i tree_str,
    render_entries count new_prefix i
      (map (λ child : string * node,
              Entry (path /p child.1) child.2
                (generate_tree_structure self (path /p child.1) child.2)) l)
      tree_str
    = (tree_str +:+
       render_lines self
         (concat (imap (λ j child,
                          tree_lines self (path /p child.1) child.2 new_prefix
                            (Nat.eqb (i + j) (count - 1))) l)),
       None).
Proof.
  induction 1 as [|child l Hc Hl IH]; intros i tree_str.
  - simpl. by rewrite append_nil_r.
  - cbn [map render_entries entry_rec imap concat].
    rewrite Hc, IH, render_lines_app, append_assoc, Nat.add_0_r.
    do 5 f_equal. apply imap_ext. intros j x _. simpl.
    by rewrite Nat.add_succ_r.
Qed.

Lemma extend_entries_ok (self : Code2MD) (path : Path)
    (l : list (string * node)) :
  Forall (λ child : string * node,
            collect_files self (path /p child.1) child.2
            = Ok (collected self (path /p child.1) child.2)) l →
  ∀ files,
    extend_entries
      (map (λ child : string * node,
              Entry (path /p child.1) child.2
                (collect_files self (path /p child.1) child.2)) l)
      files
    = (files ++ concat (map (λ child, collected self (path /p child.1) child.2) l),
       None).
Proof.
  induction 1 as [|child l Hc Hl IH]; intros files.
  - simpl. by rewrite app_nil_r.
  - cbn [map extend_entries entry_rec concat].
    by rewrite Hc, IH, <-(assoc_L (++)).
Qed.

(** The string [generate_tree_structure] returns is the rendering of
    [tree_lines], and the call does not raise. *)
Lemma generate_tree_structure_lines (self : Code2MD) (n : node) :
  ∀ path prefix is_last,
    under_root self path →
    generate_tree_structure self path n prefix is_last
    = Ok (render_lines self (tree_lines self path n prefix is_last)).
Proof.
  induction n as [| | |children IH] using node_ind;
    intros path prefix is_last Hpath.
  - simpl. by rewrite append_nil_r.
  - simpl. by rewrite append_nil_r.
  - destruct (should_exclude_dir_total self path Hpath) as [b Hb].
    cbn [generate_tree_structure tree_lines]. rewrite Hb. simpl_result.
    destruct b; simpl; by rewrite append_nil_r.
  - destruct (should_exclude_dir_total self path Hpath) as [b Hb].
    rewrite tree_lines_dir. cbn [generate_tree_structure]. rewrite Hb.
    simpl_result. destruct b; [simpl; by rewrite append_nil_r|].
    cbn [passes tree_try_body].
    rewrite filter_entries_ok.
    2:{ apply Forall_forall. intros e He%elem_of_sorted.
        apply list_elem_of_fmap in He as (child & -> & _).
        by apply under_root_joinpath. }
    rewrite (tree_entries_children self path
               (λ child, generate_tree_structure self (path /p child.1) child.2)).
    rewrite length_map, render_entries_ok.
    + simpl. unfold child_prefix. done.
    + apply Forall_forall. intros child [Hin _]%elem_of_tree_children.
      intros prefix' b.
      apply (proj1 (Forall_forall _ _) IH child Hin).
      by apply under_root_joinpath.
Qed.

(** The list [collect_files] returns is [collected], and the call does not
    raise. *)
Lemma collect_files_collected (self : Code2MD) (n : node) :
  ∀ path,
    under_root self path →
    collect_files self path n = Ok (collected self path n).
Proof.
  induction n as [| | |children IH] using node_ind; intros path Hpath.
  - destruct (should_exclude_file_total self path Hpath) as [b Hb].
    simpl. rewrite Hb. simpl_result. by destruct b.
  - done.
  - destruct (should_exclude_dir_total self path Hpath) as [b Hb].
    simpl. rewrite Hb. simpl_result. by destruct b.
  - destruct (should_exclude_dir_total self path Hpath) as [b Hb].
    rewrite collected_dir. cbn [collect_files]. rewrite Hb.
    simpl_result. destruct b; [done|].
    cbn [passes collect_try_body].
    rewrite (collect_entries_children path
               (λ child, collect_files self (path /p child.1) child.2)).
    rewrite extend_entries_ok; [done|].
    apply Forall_forall. intros child Hin.
    apply (proj1 (elem_of_collect_children _ _)) in Hin.
    apply (proj1 (Forall_forall _ _) IH child Hin).
    by apply under_root_joinpath.
Qed.

(** ** The traversals: claims *)

(** C1, in the form the program satisfies: the root is rendered as [<name>/] without connector, and
    it is itself put to [should_exclude_dir], with relative path [.]: its
    children are rendered, and its files collected, exactly when that test
    answers [False]. *)
Theorem root_rendered_and_filtered
    (self : Code2MD) (listing : option (list (string * node))) :
  render_line self (Line "" true (root_dir self) true)
  = PurePath.name (root_dir self) +:+ "/" +:+ newline
  ∧ should_exclude_dir self (root_dir self)
    = Ok (Str.startswith (PurePath.name (root_dir self)) "."
          || bool_decide ("." ∈ exclude_dirs self)
          || bool_decide (PurePath.name (root_dir self) ∈ exclude_dirs self)
          || dir_patterns (PurePath.name (root_dir self)) "."
               (exclude_patterns self))
  ∧ generate_tree_structure self (root_dir self) (Dir listing) "" true
    = Ok (render_lines self
            (Line "" true (root_dir self) true ::
             match listing with
             | Some children =>
                 if passes (should_exclude_dir self (root_dir self)) then
                   concat
                     (imap (λ i child,
                              tree_lines self (root_dir self /p child.1) child.2 ""
                                (Nat.eqb i
                                   (length (tree_children self (root_dir self) children) - 1)))
                        (tree_children self (root_dir self) children))
                 else []
             | None => []
             end))
  ∧ collect_files self (root_dir self) (Dir listing)
    = Ok match listing with
         | Some children =>
             if passes (should_exclude_dir self (root_dir self)) then
               concat (map (λ child,
                              collected self (root_dir self /p child.1) child.2)
                         (collect_children children))
             else []
         | None => []
         end.
Proof.
  pose proof (under_root_root self) as Hroot. split_and!.
  - unfold render_line, PurePath.eqb. simpl.
    by rewrite bool_decide_eq_true_2.
  - unfold should_exclude_dir. rewrite relative_to_self.
    simpl_result. cbn [PurePath.str].
    destruct (Str.startswith _ _); [done|].
    by destruct (bool_decide _), (bool_decide _).
  - rewrite generate_tree_structure_lines by done. destruct listing; [|done].
    rewrite tree_lines_dir. unfold child_prefix, PurePath.eqb.
    by rewrite bool_decide_eq_true_2.
  - rewrite collect_files_collected by done. destruct listing; [|done].
    by rewrite collected_dir.
Qed.

(** C1 fails as stated: in a root directory with a hidden name the tree is
    the root line alone and nothing is collected, although the file below
    it passes every filter. *)
Lemma root_never_filtered_fails : ¬ root_never_filtered hidden_root_config one_file.
Proof. intros [Htree _]. vm_compute in Htree. discriminate Htree. Qed.

(** ** The files of the two traversals *)

Lemma elem_of_paths_of (keep : line → bool) (p : Path) (ls : list line) :
  p ∈ paths_of keep ls ↔ ∃ l, l ∈ ls ∧ keep l = true ∧ line_path l = p.
Proof.
  unfold paths_of. rewrite list_elem_of_fmap. split.
  - intros (l & -> & Hl). apply list_elem_of_In, filter_In in Hl as [Hl Hk].
    exists l. by rewrite list_elem_of_In.
  - intros (l & Hl & Hk & <-). exists l. split; [done|].
    apply list_elem_of_In, filter_In. by rewrite <-list_elem_of_In.
Qed.

Lemma elem_of_paths_of_concat (keep : line → bool) (p : Path)
    (lss : list (list line)) :
  p ∈ paths_of keep (concat lss) ↔ ∃ ls, ls ∈ lss ∧ p ∈ paths_of keep ls.
Proof.
  rewrite elem_of_paths_of. split.
  - intros (l & (ls & Hls & Hl)%list_elem_of_In%in_concat & Hk & Hp).
    exists ls. rewrite elem_of_paths_of, list_elem_of_In.
    split; [done|]. exists l. by rewrite list_elem_of_In.
  - intros (ls & Hls & (l & Hl & Hk & Hp)%elem_of_paths_of).
    exists l. split; [|done]. apply list_elem_of_In, in_concat.
    exists ls. by rewrite <-!list_elem_of_In.
Qed.

Lemma paths_of_cons (keep : line → bool) (l : line) (ls : list line) :
  paths_of keep (l :: ls)
  = if keep l then line_path l :: paths_of keep ls else paths_of keep ls.
Proof. unfold paths_of. simpl. by destruct (keep l). Qed.

Lemma elem_of_concat_map {A B : Type} (f : A → list B) (l : list A) (y : B) :
  y ∈ concat (map f l) ↔ ∃ x, x ∈ l ∧ y ∈ f x.
Proof.
  rewrite list_elem_of_In, in_concat. split.
  - intros (k & (x & <- & Hx)%in_map_iff & Hy).
    exists x. by rewrite !list_elem_of_In.
  - intros (x & Hx%list_elem_of_In & Hy%list_elem_of_In). exists (f x).
    split; [|done]. apply in_map_iff. by exists x.
Qed.




(** ** The directories of the tree and the include list *)

Lemma dir_paths_incl (self1 self2 : Code2MD) (n : node) :
  (∀ p, should_exclude_dir self1 p = should_exclude_dir self2 p) →
  ∀ path prefix1 last1 prefix2 last2 q,
    q ∈ dir_paths (tree_lines self1 path n prefix1 last1) →
    q ∈ dir_paths (tree_lines self2 path n prefix2 last2).
Proof.
  unfold dir_paths. intros Hdir.
  induction n as [| | |children IH] using node_ind;
    intros path prefix1 last1 prefix2 last2 q; [done|done|done|].
  rewrite !tree_lines_dir, !paths_of_cons, <-Hdir. cbn [line_is_dir line_path].
  rewrite !elem_of_cons. intros [->|Hq]; [by left|right].
  destruct (passes (should_exclude_dir self1 path)); [|done].
  apply elem_of_paths_of_concat in Hq
    as (ls & (i & child & -> & Hi)%elem_of_lookup_imap & Hq).
  apply list_elem_of_lookup_2, elem_of_tree_children in Hi as [Hc Hpass].
  rewrite Forall_forall in IH.
  assert (is_dir child.2 = true) as Hd.
  { destruct child as [name [| |listing]]; [|
      |done]; by apply elem_of_nil in Hq. }
  assert (child ∈ tree_children self2 path children) as Hin.
  { apply elem_of_tree_children. split; [done|].
    unfold child_excluded in *. rewrite Hd in *. by rewrite <-Hdir. }
  apply list_elem_of_lookup in Hin as [j Hj].
  apply elem_of_paths_of_concat. eexists. split.
  - apply elem_of_lookup_imap. by exists j, child.
  - by eapply (IH child Hc).
Qed.

(** C10: [should_exclude_dir] does not read [include_files]: two
    configurations that agree on every other attribute give the same answer
    (or the same exception) on every path; and so the trees rendered under
    the two show the same directories, whatever files the include list
    keeps or drops. *)
Theorem exclude_dir_ignores_include_files
    (self1 self2 : Code2MD) (dir_path : Path) :
  exclude_files self1 = exclude_files self2 →
  exclude_dirs self1 = exclude_dirs self2 →
  exclude_patterns self1 = exclude_patterns self2 →
  root_dir self1 = root_dir self2 →
  output_file self1 = output_file self2 →
  should_exclude_dir self1 dir_path = should_exclude_dir self2 dir_path
  ∧ is_directory_visible self1 dir_path = is_directory_visible self2 dir_path
  ∧ ∀ n q,
      q ∈ dir_paths (tree_lines self1 (root_dir self1) n "" true)
      ↔ q ∈ dir_paths (tree_lines self2 (root_dir self2) n "" true).
Proof.
  intros _ Hdirs Hpatterns Hroot _.
  assert (∀ p, should_exclude_dir self1 p = should_exclude_dir self2 p) as Hdir.
  { intros p. unfold should_exclude_dir. by rewrite Hdirs, Hpatterns, Hroot. }
  split_and!.
  - apply Hdir.
  - unfold is_directory_visible. by rewrite Hdir.
  - intros n q. rewrite Hroot. split; by apply dir_paths_incl.
Qed.

(** ** The order of siblings *)

Lemma mapM_Ok {A B : Type} (f : A → result B) (g : A → B) (l : list A) :
  Forall (λ x, f x = Ok (g x)) l → mapM f l = Ok (map g l).
Proof.
  induction 1 as [|x l Hx Hl IH]; [done|].
  cbn [mapM map]. fold (mapM f l). rewrite Hx, IH. done.
Qed.

Lemma join_render_lines (self : Code2MD) (lss : list (list line)) :
  Str.join "" (map (render_lines self) lss) = render_lines self (concat lss).
Proof.
  unfold Str.join. induction lss as [|ls lss IH]; [done|].
  cbn [concat]. rewrite render_lines_app, <-IH.
  destruct lss as [|ls' lss]; [symmetry; apply append_nil_r|done].
Qed.




(** ** The statements at concrete inputs *)

Lemma hidden_dir_excluded_witness :
  Str.startswith (PurePath.name ["proj"; "src"; ".git"]) "." = true
  ∧ should_exclude_dir full_config ["proj"; "src"; ".git"] = Ok true
  ∧ is_directory_visible full_config ["proj"; "src"; ".git"] = Ok false.
Proof.
  split; [reflexivity|].
  apply (hidden_dir_excluded full_config ["proj"; "src"; ".git"]).
  reflexivity.
Defined.

Lemma exclude_dir_ignores_include_files_witness :
  exclude_files full_config = exclude_files open_config
  ∧ exclude_dirs full_config = exclude_dirs open_config
  ∧ exclude_patterns full_config = exclude_patterns open_config
  ∧ root_dir full_config = root_dir open_config
  ∧ output_file full_config = output_file open_config
  ∧ should_exclude_dir full_config ["proj"; "node_modules"]
    = should_exclude_dir open_config ["proj"; "node_modules"]
  ∧ is_directory_visible full_config ["proj"; "node_modules"]
    = is_directory_visible open_config ["proj"; "node_modules"]
  ∧ ∀ n q,
      q ∈ dir_paths (tree_lines full_config (root_dir full_config) n "" true)
      ↔ q ∈ dir_paths (tree_lines open_config (root_dir open_config) n "" true).
Proof.
  do 5 (split; [reflexivity|]).
  apply (exclude_dir_ignores_include_files full_config open_config
           ["proj"; "node_modules"]); reflexivity.
Defined.

Lemma output_file_excluded_witness :
  PurePath.name ["proj"; "out.md"] = output_file full_config
  ∧ should_exclude_file full_config ["proj"; "out.md"] = Ok true
  ∧ is_file_visible full_config ["proj"; "out.md"] = Ok false.
Proof.
  split; [reflexivity|].
  apply (output_file_excluded full_config ["proj"; "out.md"]). reflexivity.
Defined.

Lemma include_files_dominance_witness :
  PurePath.relative_to ["proj"; "src"; "main.py"] (root_dir full_config)
  = Ok ["src"; "main.py"]
  ∧ include_files full_config = Some ["src/main.py"; "out.md"]
  ∧ file_exclusion_rules full_config "main.py" "src/main.py" = false
  ∧ is_file_visible full_config ["proj"; "src"; "main.py"] = Ok true.
Proof.
  split; [reflexivity|]. split; [reflexivity|]. split; [reflexivity|].
  exact (include_files_dominance full_config ["proj"; "src"; "main.py"]
           ["src"; "main.py"] ["src/main.py"; "out.md"] eq_refl eq_refl).
Defined.

Lemma policy_never_raises_witness :
  under_root full_config ["proj"; "src"; "main.py"]
  ∧ (∃ rel, PurePath.relative_to ["proj"; "src"; "main.py"] (root_dir full_config)
            = Ok rel)
  ∧ (∃ b, should_exclude_dir full_config ["proj"; "src"; "main.py"] = Ok b)
  ∧ (∃ b, should_exclude_file full_config ["proj"; "src"; "main.py"] = Ok b).
Proof.
  split; [by exists ["src"; "main.py"]|].
  apply (policy_never_raises full_config ["proj"; "src"; "main.py"]).
  by exists ["src"; "main.py"].
Defined.

Lemma dir_pattern_prefix_excluded_witness :
  PurePath.relative_to ["proj"; "build"; "sub"; "deep"] (root_dir full_config)
  = Ok ["build"; "sub"; "deep"]
  ∧ Forall component ["build"; "sub"; "deep"]
  ∧ "build/su?" ∈ exclude_patterns full_config
  ∧ Fnmatch.fnmatch "deep" "build/su?" = false
  ∧ Fnmatch.fnmatch "build/sub/deep" "build/su?" = false
  ∧ Fnmatch.fnmatch "build/sub" "build/su?" = true
  ∧ should_exclude_dir full_config ["proj"; "build"; "sub"; "deep"] = Ok true.
Proof.
  split; [reflexivity|].
  split; [repeat constructor|].
  split; [repeat constructor|].
  do 3 (split; [reflexivity|]).
  apply (dir_pattern_prefix_excluded full_config
           ["proj"; "build"; "sub"; "deep"] ["build"; "sub"; "deep"] "build/su?").
  - reflexivity.
  - repeat constructor.
  - repeat constructor.
  - right. right. split; [reflexivity|].
    exists "build/sub". split; [|reflexivity].
    unfold path_prefixes. simpl. repeat constructor.
Defined.



(** ** Checks on small inputs *)

Example fnmatch_star : Fnmatch.fnmatch "build/sub" "build/*" = true.
Proof. reflexivity. Qed.

Example fnmatch_whole_name : Fnmatch.fnmatch "build" "build/*" = false.
Proof. reflexivity. Qed.

Example fnmatch_class : Fnmatch.fnmatch "a1.log" "[!b-z][0-9].lo?" = true.
Proof. reflexivity. Qed.

Example fnmatch_open_bracket : Fnmatch.fnmatch "[x" "[*" = true.
Proof. reflexivity. Qed.

Example fnmatch_empty_range_dropped :
  Fnmatch.fnmatch "y" "[b-a!x]" = true ∧ Fnmatch.fnmatch "x" "[b-a!x]" = false.
Proof. by vm_compute. Qed.

Example fnmatch_not_substring : Fnmatch.fnmatch "main.log.txt" "*.log" = false.
Proof. reflexivity. Qed.

Example split_relative : Str.split "/"%char "a/b" = ["a"; "b"].
Proof. reflexivity. Qed.

Example lower_mixed : Str.lower "ReadMe.MD" = "readme.md".
Proof. reflexivity. Qed.

(** The scenario of the specification: [readme.md], [.secret] and the output
    file [out.md] below the root. *)
Example collect_scenario_output :
  collect_files open_config ["proj"]
    (Dir (Some [("readme.md", File); (".secret", File); ("out.md", File)]))
  = Ok [["proj"; "readme.md"]].
Proof. by vm_compute. Qed.

(** The scenario [src/main.x], [src/.git/config]. *)
Example collect_scenario_git :
  collect_files open_config ["proj"]
    (Dir (Some [("src", Dir (Some [("main.x", File);
                                   (".git", Dir (Some [("config", File)]))]))]))
  = Ok [["proj"; "src"; "main.x"]].
Proof. by vm_compute. Qed.

(** An unreadable directory keeps its line; its neighbours are rendered. *)
Example tree_locked :
  generate_tree_structure (default_config ["proj"]) ["proj"] locked_tree "" true
  = Ok ("proj/" +:+ newline +:+
        "├── a/" +:+ newline +:+
        "│   └── x.py" +:+ newline +:+
        "├── locked/" +:+ newline +:+
        "└── z.txt" +:+ newline).
Proof. by vm_compute. Qed.

(** The tree of a root with a hidden name. *)
Example tree_hidden_root :
  generate_tree_structure hidden_root_config ["home"; ".dotfiles"]
    (Dir (Some one_file)) "" true
  = Ok (".dotfiles/" +:+ newline)
  ∧ collect_files hidden_root_config ["home"; ".dotfiles"] (Dir (Some one_file))
    = Ok []
  ∧ should_exclude_file hidden_root_config ["home"; ".dotfiles"; "a.txt"]
    = Ok false.
Proof. by vm_compute. Qed.

(** A FIFO is on a file line of the tree and is not collected. *)
Example tree_fifo :
  generate_tree_structure (default_config ["proj"]) ["proj"] fifo_tree "" true
  = Ok ("proj/" +:+ newline +:+
        "├── pipe" +:+ newline +:+
        "└── a.txt" +:+ newline)
  ∧ collect_files (default_config ["proj"]) ["proj"] fifo_tree
    = Ok [["proj"; "a.txt"]].
Proof. by vm_compute. Qed.

(** * Further properties *)

(** ** The filter policy as a whole *)

Lemma strip_prefix_Some (other p rel : Path) :
  PurePath.strip_prefix other p = Some rel → p = other ++ rel.
Proof.
  revert p. induction other as [|o other IH]; intros p; simpl.
  - by intros [= ->].
  - destruct p as [|x p]; [done|].
    destruct (String.eqb_spec o x) as [->|]; [|done].
    intros H. by rewrite (IH p H).
Qed.

Lemma relative_to_Ok (p other rel : Path) :
  PurePath.relative_to p other = Ok rel ↔ p = other ++ rel.
Proof.
  unfold PurePath.relative_to. split.
  - destruct (PurePath.strip_prefix other p) eqn:H; [|done].
    intros [= ->]. by apply strip_prefix_Some.
  - intros ->. by rewrite strip_prefix_app.
Qed.

Lemma dir_patterns_existsb (dir_name rel : string) (patterns : list string) :
  dir_patterns dir_name rel patterns
  = existsb (λ pattern,
               Fnmatch.fnmatch dir_name pattern
               || Fnmatch.fnmatch rel pattern
               || Str.contains "/"%char pattern
                  && partial_path_matches rel pattern) patterns.
Proof.
  induction patterns as [|pattern rest IH]; simpl; [done|]. rewrite IH.
  destruct (Fnmatch.fnmatch dir_name pattern || Fnmatch.fnmatch rel pattern);
    simpl; [done|].
  by destruct (Str.contains "/"%char pattern && partial_path_matches rel pattern).
Qed.

Lemma existsb_seq_succ (f : nat → bool) (start n : nat) :
  existsb (λ i, f (i + 1)) (seq start n) = existsb f (seq (S start) n).
Proof.
  revert start. induction n as [|n IH]; intros start; simpl; [done|].
  by rewrite Nat.add_1_r, IH.
Qed.

Lemma existsb_ext {A : Type} (f g : A → bool) (l : list A) :
  (∀ x, f x = g x) → existsb f l = existsb g l.
Proof. intros H. induction l as [|x l IH]; simpl; [done|]. by rewrite H, IH. Qed.

Lemma existsb_fmap {A B : Type} (f : B → bool) (g : A → B) (l : list A) :
  existsb f (g <$> l) = existsb (λ x, f (g x)) l.
Proof. induction l as [|x l IH]; simpl; [done|]. by rewrite <-IH. Qed.

Lemma partial_path_matches_prefixes (rel : Path) (pattern : string) :
  Forall component rel → rel ≠ [] →
  partial_path_matches (PurePath.str rel) pattern
  = existsb (λ partial_path, Fnmatch.fnmatch partial_path pattern)
      (path_prefixes rel).
Proof.
  intros Hrel Hne. unfold partial_path_matches, path_prefixes.
  replace (PurePath.str rel) with (Str.join "/" rel) by by destruct rel.
  rewrite split_join by done.
  rewrite existsb_fmap.
  apply (existsb_seq_succ
           (λ k, Fnmatch.fnmatch (Str.join "/" (take k rel)) pattern)).
Qed.

(** X1: a directory below the root is excluded exactly when one of the
    rules holds: hidden name; relative path or bare name in the exclude
    list; or a pattern that matches the bare name, the relative path, or,
    when it holds a [/], one of the path prefixes. *)
Theorem should_exclude_dir_rules (self : Code2MD) (dir_path rel : Path) :
  PurePath.relative_to dir_path (root_dir self) = Ok rel →
  Forall component rel →
  should_exclude_dir self dir_path
  = Ok (dir_exclusion_rules self (PurePath.name dir_path) rel).
Proof.
  intros Hrel Hcomp. unfold should_exclude_dir, dir_exclusion_rules.
  rewrite Hrel. simpl_result. rewrite dir_patterns_existsb.
  destruct (Str.startswith _ _); [done|].
  destruct (bool_decide (PurePath.str rel ∈ _)); [done|].
  destruct (bool_decide (PurePath.name dir_path ∈ _)); [done|].
  simpl. f_equal. apply existsb_ext. intros pattern.
  destruct rel as [|name rel'].
  - unfold partial_path_matches, path_prefixes. simpl.
    rewrite !orb_false_r.
    by destruct (Fnmatch.fnmatch "." pattern);
      rewrite ?orb_true_r, ?andb_false_r.
  - by rewrite partial_path_matches_prefixes.
Qed.

Lemma should_exclude_file_decision (self : Code2MD) (file_path rel : Path) :
  PurePath.relative_to file_path (root_dir self) = Ok rel →
  should_exclude_file self file_path
  = Ok (file_exclusion_rules self (PurePath.name file_path) (PurePath.str rel)
        || not_included self (PurePath.str rel)).
Proof.
  intros Hrel. unfold should_exclude_file, file_exclusion_rules, not_included.
  rewrite Hrel. simpl_result. rewrite file_patterns_existsb.
  destruct (Str.startswith _ _); [done|].
  destruct (String.eqb _ _); [done|].
  destruct (bool_decide (_ ∈ exclude_files self)); [done|].
  destruct (existsb _ _); [done|].
  by destruct (include_files self).
Qed.

(** X2: a file below the root is excluded exactly when an exclusion rule
    catches its bare name or its relative path, or an include list is set
    and does not hold the relative path; nothing else of the path is
    looked at, and the path prefixes that count for a directory do not
    count for a file. *)
Theorem should_exclude_file_rules (self : Code2MD) (file_path rel : Path) :
  PurePath.relative_to file_path (root_dir self) = Ok rel →
  should_exclude_file self file_path
  = Ok (file_exclusion_rules self (PurePath.name file_path) (PurePath.str rel)
        || not_included self (PurePath.str rel)).
Proof. apply should_exclude_file_decision. Qed.

Lemma path_prefixes_app (rel more : Path) (partial_path : string) :
  partial_path ∈ path_prefixes rel → partial_path ∈ path_prefixes (rel ++ more).
Proof.
  unfold path_prefixes. rewrite !list_elem_of_fmap.
  intros (k & -> & Hk). apply elem_of_seq in Hk. exists k. split.
  - by rewrite take_app_le by lia.
  - apply elem_of_seq. rewrite length_app. lia.
Qed.

(** X3: the prefix rule is inherited: when a pattern holding a [/] matches
    a path prefix of a directory, every directory below it is excluded by
    [should_exclude_dir] as well. *)
Theorem prefix_exclusion_inherited
    (self : Code2MD) (dir_path rel more : Path) (pattern partial_path : string) :
  PurePath.relative_to dir_path (root_dir self) = Ok rel →
  Forall component (rel ++ more) →
  pattern ∈ exclude_patterns self →
  Str.contains "/"%char pattern = true →
  partial_path ∈ path_prefixes rel →
  Fnmatch.fnmatch partial_path pattern = true →
  should_exclude_dir self (dir_path ++ more) = Ok true.
Proof.
  intros Hrel%relative_to_Ok Hcomp Hin Hslash Hpre Hm. subst dir_path.
  unfold should_exclude_dir.
  rewrite <-(assoc_L (++)), (proj2 (relative_to_Ok _ _ (rel ++ more))) by done.
  simpl_result.
  rewrite (dir_patterns_true _ _ pattern); [by repeat case_match|done|].
  rewrite Hslash,
    (partial_path_matches_prefix (rel ++ more) partial_path pattern Hcomp);
    [apply orb_true_r|by apply path_prefixes_app|done].
Qed.

(** ** What the traversals reach *)

Lemma forallb_seq_succ (f : nat → bool) (start n : nat) :
  forallb f (seq (S start) n) = forallb (λ k, f (S k)) (seq start n).
Proof.
  revert start. induction n as [|n IH]; intros start; simpl; [done|].
  by rewrite IH.
Qed.

Lemma forallb_ext {A : Type} (f g : A → bool) (l : list A) :
  (∀ x, f x = g x) → forallb f l = forallb g l.
Proof. intros H. induction l as [|x l IH]; simpl; [done|]. by rewrite H, IH. Qed.

Lemma ancestors_pass_cons (self : Code2MD) (path : Path) (name : string)
    (rel : list string) :
  ancestors_pass self path (name :: rel)
  = passes (should_exclude_dir self path)
    && ancestors_pass self (path /p name) rel.
Proof.
  unfold ancestors_pass, PurePath.joinpath. cbn [length seq forallb take].
  rewrite app_nil_r, forallb_seq_succ. f_equal.
  apply forallb_ext. intros k. cbn [take]. by rewrite <-(assoc_L (++)).
Qed.

Lemma elem_of_entries_at_cons (children : list (string * node))
    (name : string) (rel : list string) (m : node) :
  m ∈ entries_at (Dir (Some children)) (name :: rel)
  ↔ ∃ child, child ∈ children ∧ child.1 = name ∧ m ∈ entries_at child.2 rel.
Proof.
  cbn [entries_at]. rewrite elem_of_concat_map. split.
  - intros (child & Hin & Hm). exists child.
    destruct (String.eqb_spec child.1 name); [done|by apply elem_of_nil in Hm].
  - intros (child & Hin & <- & Hm). exists child.
    by rewrite String.eqb_refl.
Qed.

Lemma entries_at_leaf (n : node) (name : string) (rel : list string) (m : node) :
  m ∈ entries_at n (name :: rel) → ∃ children, n = Dir (Some children).
Proof.
  destruct n as [| |[children|]]; cbn [entries_at];
    try (by intros ?%elem_of_nil). eauto.
Qed.

Lemma joinpath_app (path : Path) (name : string) (rel : list string) :
  (path /p name) ++ rel = path ++ name :: rel.
Proof. unfold PurePath.joinpath. by rewrite <-(assoc_L (++)). Qed.

(** The files [collected] holds are the regular files of the tree that pass
    [should_exclude_file] and whose ancestors all pass
    [should_exclude_dir]. *)
Lemma collected_entries_at (self : Code2MD) (n : node) :
  ∀ path p,
    p ∈ collected self path n
    ↔ ∃ rel, p = path ++ rel
             ∧ File ∈ entries_at n rel
             ∧ ancestors_pass self path rel = true
             ∧ passes (should_exclude_file self p) = true.
Proof.
  induction n as [| | |children IH] using node_ind; intros path p.
  - cbn [collected]. split.
    + destruct (passes (should_exclude_file self path)) eqn:Hpass;
        [|by intros ?%elem_of_nil].
      intros ->%list_elem_of_singleton. exists [].
      rewrite app_nil_r. split_and!; [done|by constructor|done|done].
    + intros ([|name rel] & -> & Hin & _ & Hpass).
      * rewrite app_nil_r in *. rewrite Hpass. by constructor.
      * by apply elem_of_nil in Hin.
  - cbn [collected]. split; [by intros ?%elem_of_nil|].
    intros ([|name rel] & _ & Hin & _);
      [by apply list_elem_of_singleton in Hin|by apply elem_of_nil in Hin].
  - cbn [collected]. split; [by intros ?%elem_of_nil|].
    intros ([|name rel] & _ & Hin & _);
      [by apply list_elem_of_singleton in Hin|by apply elem_of_nil in Hin].
  - rewrite collected_dir. rewrite Forall_forall in IH. split.
    + destruct (passes (should_exclude_dir self path)) eqn:Hpass;
        [|by intros ?%elem_of_nil].
      intros (child & Hin & Hp)%elem_of_concat_map.
      apply (proj1 (elem_of_collect_children _ _)) in Hin.
      apply (IH child Hin) in Hp as (rel & -> & Hfile & Hanc & Hp).
      exists (child.1 :: rel).
      split_and!; [apply joinpath_app| |by rewrite ancestors_pass_cons, Hpass|done].
      apply elem_of_entries_at_cons. by exists child.
    + intros ([|name rel] & -> & Hfile & Hanc & Hp);
        [by apply list_elem_of_singleton in Hfile|].
      rewrite ancestors_pass_cons in Hanc.
      apply andb_true_iff in Hanc as [-> Hanc].
      apply elem_of_entries_at_cons in Hfile as (child & Hin & <- & Hfile).
      apply elem_of_concat_map. exists child.
      split; [by apply elem_of_collect_children|].
      apply (IH child Hin). exists rel. by rewrite joinpath_app.
Qed.

Lemma ancestors_pass_nil (self : Code2MD) (path : Path) :
  ancestors_pass self path [] = true.
Proof. done. Qed.

Lemma tree_lines_entries_at_leaf (self : Code2MD) (n : node)
    (path : Path) (prefix : string) (is_last : bool) (p : Path) (d : bool) :
  (∀ children, n ≠ Dir (Some children)) →
  (∃ l, l ∈ tree_lines self path n prefix is_last
        ∧ line_path l = p ∧ line_is_dir l = d)
  ↔ (p = path ∧ d = is_dir n)
    ∨ ∃ rel m, rel ≠ []
               ∧ p = path ++ rel
               ∧ m ∈ entries_at n rel
               ∧ d = is_dir m
               ∧ ancestors_pass self path rel = true
               ∧ passes (node_excluded self p m) = true.
Proof.
  intros Hn.
  assert (tree_lines self path n prefix is_last
          = [Line prefix is_last path (is_dir n)]) as ->.
  { destruct n as [| |[children|]]; try done. by destruct (Hn children). }
  split.
  - intros (l & ->%list_elem_of_singleton & <- & <-). by left.
  - intros [[-> ->]|([|name rel] & m & Hne & _ & Hm & _)]; [|done|].
    + eexists. split; [by apply list_elem_of_singleton|done].
    + apply entries_at_leaf in Hm as [children ->]. by destruct (Hn children).
Qed.

(** The lines of the tree: the line of the entry the walk starts from, and
    one line for every entry below it that passes its check and whose
    ancestors all pass [should_exclude_dir]. *)
Lemma tree_lines_entries_at (self : Code2MD) (n : node) :
  ∀ path prefix is_last p d,
    (∃ l, l ∈ tree_lines self path n prefix is_last
          ∧ line_path l = p ∧ line_is_dir l = d)
    ↔ (p = path ∧ d = is_dir n)
      ∨ ∃ rel m, rel ≠ []
                 ∧ p = path ++ rel
                 ∧ m ∈ entries_at n rel
                 ∧ d = is_dir m
                 ∧ ancestors_pass self path rel = true
                 ∧ passes (node_excluded self p m) = true.
Proof.
  induction n as [| | |children IH] using node_ind;
    intros path prefix is_last p d;
    [by apply tree_lines_entries_at_leaf..|].
  rewrite tree_lines_dir. rewrite Forall_forall in IH. split.
  - intros (l & Hl & <- & <-). apply elem_of_cons in Hl as [->|Hl]; [by left|].
    right. destruct (passes (should_exclude_dir self path)) eqn:Hpass;
      [|by apply elem_of_nil in Hl].
    apply list_elem_of_In, in_concat in Hl as (ls & Hls & Hl).
    apply list_elem_of_In, elem_of_lookup_imap in Hls as (i & child & -> & Hi).
    apply list_elem_of_lookup_2, elem_of_tree_children in Hi as [Hin Hchild].
    apply list_elem_of_In in Hl.
    assert (∃ l', l' ∈ tree_lines self (path /p child.1) child.2
                         (child_prefix self path prefix is_last)
                         (i =? length (tree_children self path children) - 1)
                  ∧ line_path l' = line_path l ∧ line_is_dir l' = line_is_dir l)
      as Hex by eauto.
    apply (IH child Hin) in Hex
      as [[Hp Hd]|(rel & m & Hne & Hp & Hm & Hd & Hanc & Hm')].
    + exists [child.1], child.2. split_and!; try done.
      * apply elem_of_entries_at_cons. exists child.
        split_and!; [done|done|]. cbn [entries_at].
        by apply list_elem_of_singleton.
      * by rewrite ancestors_pass_cons, Hpass.
      * by rewrite Hp.
    + exists (child.1 :: rel), m. rewrite joinpath_app in Hp.
      split_and!; try done.
      * apply elem_of_entries_at_cons. by exists child.
      * by rewrite ancestors_pass_cons, Hpass.
  - intros [[-> ->]|([|name rel] & m & Hne & -> & Hm & -> & Hanc & Hm')];
      [|done|].
    { eexists. split; [by left|done]. }
    rewrite ancestors_pass_cons in Hanc.
    apply andb_true_iff in Hanc as [-> Hanc].
    apply elem_of_entries_at_cons in Hm as (child & Hin & <- & Hm).
    assert (child ∈ tree_children self path children) as Hchild.
    { apply elem_of_tree_children. split; [done|].
      destruct rel as [|name' rel'].
      - apply list_elem_of_singleton in Hm as ->. exact Hm'.
      - rewrite ancestors_pass_cons in Hanc.
        apply andb_true_iff in Hanc as [Hdir _].
        apply entries_at_leaf in Hm as [grandchildren Hc].
        unfold child_excluded. by rewrite Hc. }
    apply list_elem_of_lookup in Hchild as [i Hi].
    assert (∃ l, l ∈ tree_lines self (path /p child.1) child.2
                        (child_prefix self path prefix is_last)
                        (i =? length (tree_children self path children) - 1)
                 ∧ line_path l = path ++ child.1 :: rel
                 ∧ line_is_dir l = is_dir m) as (l & Hl & Hp & Hd).
    { apply (IH child Hin). destruct rel as [|name' rel'].
      - left. apply list_elem_of_singleton in Hm as ->. done.
      - right. exists (name' :: rel'), m. by rewrite joinpath_app. }
    exists l. split; [|done]. right.
    apply list_elem_of_In, in_concat. eexists. split.
    + apply list_elem_of_In, elem_of_lookup_imap. by exists i, child.
    + by apply list_elem_of_In.
Qed.

(** X4: every file [collect_files] returns from the root escapes all the
    rules of [should_exclude_file] on its bare name and relative path, and
    with an include list set its relative path is in the list.  So an
    include list that is set and empty (as [--include-files ""] gives)
    leaves no file at all. *)
Theorem collect_files_obey_rules (self : Code2MD) (n : node) :
  ∃ files,
    collect_files self (root_dir self) n = Ok files
    ∧ (∀ p, p ∈ files →
         ∃ rel, p = root_dir self ++ rel
                ∧ file_exclusion_rules self (PurePath.name p) (PurePath.str rel)
                  = false
                ∧ ∀ included, include_files self = Some included →
                              PurePath.str rel ∈ included)
    ∧ (include_files self = Some [] → files = []).
Proof.
  exists (collected self (root_dir self) n).
  assert (∀ p, p ∈ collected self (root_dir self) n →
            ∃ rel, p = root_dir self ++ rel
                   ∧ file_exclusion_rules self (PurePath.name p) (PurePath.str rel)
                     = false
                   ∧ ∀ included, include_files self = Some included →
                                 PurePath.str rel ∈ included) as Hrules.
  { intros p (rel & Hp & _ & _ & Hpass)%collected_entries_at.
    exists rel. split; [done|].
    rewrite (should_exclude_file_decision self p rel) in Hpass
      by by apply relative_to_Ok.
    simpl in Hpass. unfold not_included in Hpass.
    destruct (file_exclusion_rules _ _ _); [done|]. split; [done|].
    intros included Hinc. rewrite Hinc in Hpass. simpl in Hpass.
    destruct (bool_decide_reflect (PurePath.str rel ∈ included)); done. }
  split_and!.
  - apply collect_files_collected, under_root_root.
  - exact Hrules.
  - intros Hinc.
    destruct (collected self (root_dir self) n) as [|p files]; [done|].
    destruct (Hrules p) as (rel & _ & _ & Hin); [by left|].
    by apply Hin, elem_of_nil in Hinc.
Qed.

(** ** Entries that fail their check leave no trace *)

Lemma collected_excluded (self : Code2MD) (path : Path) (n : node) :
  passes (node_excluded self path n) = false → collected self path n = [].
Proof.
  unfold node_excluded.
  destruct n as [| |[children|]]; simpl; try done; by intros ->.
Qed.

Lemma concat_map_filter {A B : Type} (g : A → list B) (keep : A → bool)
    (l : list A) :
  (∀ x, keep x = false → g x = []) →
  concat (map g l) = concat (map g (List.filter keep l)).
Proof.
  intros Hg. induction l as [|x l IH]; simpl; [done|].
  destruct (keep x) eqn:Hx; simpl; [by rewrite IH|].
  by rewrite (Hg x Hx).
Qed.

Lemma filter_middle {A : Type} (keep : A → bool) (l1 l2 : list A) (x : A) :
  keep x = false →
  List.filter keep (l1 ++ x :: l2) = List.filter keep (l1 ++ l2).
Proof. intros Hx. rewrite !List.filter_app. simpl. by rewrite Hx. Qed.

Lemma tree_children_middle (self : Code2MD) (path : Path)
    (l1 l2 : list (string * node)) (x : string * node) :
  passes (child_excluded self path x) = false →
  tree_children self path (l1 ++ x :: l2) = tree_children self path (l1 ++ l2).
Proof.
  intros Hx. unfold tree_children.
  rewrite !(filter_sorted tuple_ltb child_tree_key)
    by (apply tuple_ltb_asym || apply tuple_le_trans).
  by rewrite filter_middle.
Qed.

Lemma collected_children_middle (self : Code2MD) (path : Path)
    (l1 l2 : list (string * node)) (x : string * node) :
  passes (child_excluded self path x) = false →
  concat (map (λ child, collected self (path /p child.1) child.2)
            (collect_children (l1 ++ x :: l2)))
  = concat (map (λ child, collected self (path /p child.1) child.2)
              (collect_children (l1 ++ l2))).
Proof.
  intros Hx.
  rewrite (concat_map_filter _
             (λ child, passes (child_excluded self path child))
             (collect_children (l1 ++ x :: l2))),
          (concat_map_filter _
             (λ child, passes (child_excluded self path child))
             (collect_children (l1 ++ l2)))
    by (intros child; apply collected_excluded).
  unfold collect_children.
  rewrite !(filter_sorted Str.ltb child_name_key)
    by (apply ltb_asym || apply ltb_le_trans).
  by rewrite filter_middle.
Qed.

(** ** The report *)



Lemma join_app (s : string) (parts : list string) :
  Str.join "" (s :: parts) = s +:+ Str.join "" parts.
Proof.
  unfold Str.join. destruct parts; simpl; [by rewrite append_nil_r|done].
Qed.


(** X11: the output file of an earlier run does not feed back into the
    report: with or without a file named [output_file] in the listing of
    the root, [generate_markdown] returns the same text. *)
Theorem output_file_no_feedback
    (self : Code2MD) (l1 l2 : list (string * node))
    (open_file : Path → read_outcome) :
  generate_markdown self (Dir (Some (l1 ++ (output_file self, File) :: l2)))
    open_file
  = generate_markdown self (Dir (Some (l1 ++ l2))) open_file.
Proof.
  pose proof (under_root_root self) as Hroot.
  assert (passes (child_excluded self (root_dir self) (output_file self, File))
          = false) as Hpass.
  { unfold child_excluded, should_exclude_file. cbn [is_dir fst snd].
    rewrite name_joinpath, String.eqb_refl. by case_match. }
  unfold generate_markdown.
  rewrite !generate_tree_structure_lines, !collect_files_collected by done.
  rewrite !tree_lines_dir, !collected_dir.
  by rewrite tree_children_middle, collected_children_middle.
Qed.

(** ** Every collected file once *)

Lemma paths_of_app (keep : line → bool) (ls1 ls2 : list line) :
  paths_of keep (ls1 ++ ls2) = paths_of keep ls1 ++ paths_of keep ls2.
Proof. unfold paths_of. by rewrite List.filter_app, fmap_app. Qed.

Lemma paths_of_concat (keep : line → bool) (lss : list (list line)) :
  paths_of keep (concat lss) = concat (map (paths_of keep) lss).
Proof.
  induction lss as [|ls lss IH]; simpl; [done|].
  by rewrite paths_of_app, IH.
Qed.

Lemma filter_Permutation {A : Type} (keep : A → bool) (l1 l2 : list A) :
  l1 ≡ₚ l2 → List.filter keep l1 ≡ₚ List.filter keep l2.
Proof.
  induction 1 as [|x l1 l2 _ IH|x y l|l1 l2 l3 _ IH1 _ IH2]; simpl.
  - done.
  - destruct (keep x); by rewrite IH.
  - destruct (keep x), (keep y); try done. apply Permutation_swap.
  - by rewrite IH1.
Qed.

Lemma concat_map_Permutation {A B : Type} (g : A → list B) (l1 l2 : list A) :
  l1 ≡ₚ l2 → concat (map g l1) ≡ₚ concat (map g l2).
Proof.
  induction 1 as [|x l1 l2 _ IH|x y l|l1 l2 l3 _ IH1 _ IH2]; simpl.
  - done.
  - by rewrite IH.
  - rewrite !(assoc_L (++)). f_equiv. apply Permutation_app_comm.
  - by rewrite IH1.
Qed.

Lemma concat_imap_Permutation {A B : Type} (f : nat → A → list B)
    (g : A → list B) (l : list A) :
  (∀ i x, x ∈ l → f i x ≡ₚ g x) →
  concat (imap f l) ≡ₚ concat (map g l).
Proof.
  revert f. induction l as [|x l IH]; intros f Hf; simpl; [done|].
  rewrite (Hf 0 x) by by left. f_equiv.
  apply IH. intros i y Hy. apply Hf. by right.
Qed.

(** On a tree without special entries, the files below an entry that
    passes its check are on the file lines of the tree, each as often as
    the collector returns it. *)
Lemma collected_Permutation (self : Code2MD) (n : node) :
  regular n = true →
  ∀ path prefix is_last,
    collected self path n
    ≡ₚ if passes (node_excluded self path n)
       then file_paths (tree_lines self path n prefix is_last) else [].
Proof.
  unfold file_paths.
  induction n as [| | |children IH] using node_ind;
    intros Hreg path prefix is_last.
  - unfold node_excluded. cbn [collected tree_lines is_dir].
    rewrite paths_of_cons. simpl. by case_match.
  - done.
  - unfold node_excluded. simpl. by case_match.
  - rewrite collected_dir, tree_lines_dir, paths_of_cons.
    unfold node_excluded. cbn [is_dir line_is_dir negb].
    destruct (passes (should_exclude_dir self path)) eqn:Hpass; [|done].
    simpl in Hreg. rewrite forallb_forall in Hreg.
    rewrite Forall_forall in IH.
    rewrite paths_of_concat.
    change (map ?f ?l) with (f <$> l) at 2. rewrite fmap_imap.
    rewrite (concat_map_filter _
               (λ child, passes (child_excluded self path child))
               (collect_children children))
      by (intros child; apply collected_excluded).
    symmetry. etrans.
    { apply (concat_imap_Permutation _
               (λ child, collected self (path /p child.1) child.2)).
      intros i child [Hin Hchild]%elem_of_tree_children. simpl.
      pose proof (Hreg child (proj1 (list_elem_of_In _ _) Hin)) as Hr.
      rewrite (IH child Hin Hr (path /p child.1)
                 (child_prefix self path prefix is_last)
                 (i =? length (tree_children self path children) - 1)).
      unfold child_excluded in Hchild. unfold node_excluded.
      by rewrite Hchild. }
    apply concat_map_Permutation. unfold tree_children, collect_children.
    apply filter_Permutation. by rewrite !sorted_perm.
Qed.

(** X7: on a tree whose entries are regular files and directories, the
    file lines of the tree are a rearrangement of the list [collect_files]
    returns: every file has as many lines in the tree as sections in the
    report, and the two counts are equal. *)
Theorem regular_file_lines_Permutation
    (self : Code2MD) (listing : option (list (string * node))) :
  regular (Dir listing) = true →
  ∃ files,
    collect_files self (root_dir self) (Dir listing) = Ok files
    ∧ file_paths (tree_lines self (root_dir self) (Dir listing) "" true)
      ≡ₚ files
    ∧ length (file_paths (tree_lines self (root_dir self) (Dir listing) "" true))
      = length files.
Proof.
  intros Hreg. exists (collected self (root_dir self) (Dir listing)).
  assert (file_paths (tree_lines self (root_dir self) (Dir listing) "" true)
          ≡ₚ collected self (root_dir self) (Dir listing)) as Hperm.
  { rewrite (collected_Permutation self _ Hreg _ "" true).
    unfold node_excluded. cbn [is_dir].
    destruct (passes (should_exclude_dir self (root_dir self))) eqn:Hpass;
      [done|].
    destruct listing as [children|]; [by rewrite tree_lines_dir, Hpass|done]. }
  split_and!.
  - apply collect_files_collected, under_root_root.
  - done.
  - by rewrite Hperm.
Qed.

Lemma NoDup_concat_map (path : Path) (g : string * node → list Path)
    (l : list (string * node)) :
  NoDup l.*1 →
  (∀ child, child ∈ l → NoDup (g child)) →
  (∀ child p, child ∈ l → p ∈ g child → ∃ rel, p = path ++ child.1 :: rel) →
  NoDup (concat (map g l)).
Proof.
  induction l as [|child l IH]; intros Hnames Hg Hbelow; simpl;
    [constructor|].
  apply NoDup_cons in Hnames as [Hname Hnames].
  apply NoDup_app. split_and!.
  - apply Hg. by left.
  - intros p Hp (child' & Hin & Hp')%elem_of_concat_map.
    destruct (Hbelow child p) as [rel Hrel]; [by left|done|].
    destruct (Hbelow child' p) as [rel' Hrel']; [by right|done|].
    rewrite Hrel in Hrel'. apply app_inv_head in Hrel'.
    injection Hrel' as Heq _. apply Hname. rewrite Heq.
    apply list_elem_of_fmap. by exists child'.
  - apply IH; [done|..].
    + intros child' Hin. apply Hg. by right.
    + intros child' p Hin. apply Hbelow. by right.
Qed.

Lemma collected_NoDup (self : Code2MD) (n : node) :
  unique_names n = true → ∀ path, NoDup (collected self path n).
Proof.
  induction n as [| | |children IH] using node_ind; intros Hnames path.
  - simpl. case_match; [apply NoDup_singleton|constructor].
  - constructor.
  - constructor.
  - rewrite collected_dir. case_match; [|constructor].
    simpl in Hnames. apply andb_true_iff in Hnames as [Hnd Hall].
    apply bool_decide_eq_true in Hnd. rewrite forallb_forall in Hall.
    rewrite Forall_forall in IH.
    apply (NoDup_concat_map path).
    + unfold collect_children. by rewrite sorted_perm.
    + intros child Hin. apply (proj1 (elem_of_collect_children _ _)) in Hin.
      apply (IH child Hin). by apply Hall, list_elem_of_In.
    + intros child p _ (rel & -> & _)%collected_entries_at.
      exists rel. apply joinpath_app.
Qed.

(** X8: when the names in every listing are distinct, [collect_files]
    returns no path twice, so the report has one section per file at
    most. *)
Theorem collect_files_NoDup (self : Code2MD) (n : node) :
  unique_names n = true →
  ∃ files, collect_files self (root_dir self) n = Ok files ∧ NoDup files.
Proof.
  intros Hnames. exists (collected self (root_dir self) n). split.
  - apply collect_files_collected, under_root_root.
  - by apply collected_NoDup.
Qed.

(** ** [parse_list_argument] *)

Lemma split_no_sep (sep : ascii) (s item : string) :
  item ∈ Str.split sep s → Str.contains sep item = false.
Proof.
  revert item. induction s as [|c s IH]; intros item; simpl.
  - by intros ->%list_elem_of_singleton.
  - destruct (Ascii.eqb c sep) eqn:Hc.
    + intros [->|Hin]%elem_of_cons; [done|by apply IH].
    + destruct (Str.split sep s) as [|w ws].
      * intros ->%list_elem_of_singleton. simpl. by rewrite Hc.
      * intros [->|Hin]%elem_of_cons.
        -- simpl. rewrite Hc. apply IH. by left.
        -- apply IH. by right.
Qed.

Lemma contains_lstrip (c : ascii) (s : string) :
  Str.contains c s = false → Str.contains c (Strip.lstrip s) = false.
Proof.
  induction s as [|a s IH]; simpl; [done|].
  intros [Ha Hs]%orb_false_iff. case_match; [by apply IH|].
  simpl. by rewrite Ha, Hs.
Qed.

Lemma contains_rstrip (c : ascii) (s : string) :
  Str.contains c s = false → Str.contains c (Strip.rstrip s) = false.
Proof.
  induction s as [|a s IH]; simpl; [done|].
  intros [Ha Hs]%orb_false_iff. specialize (IH Hs).
  destruct (Strip.rstrip s) as [|b r].
  - case_match; simpl; [done|by rewrite Ha].
  - cbn [Str.contains] in *. by rewrite Ha.
Qed.

Lemma lstrip_no_lead (s : string) : no_lead (Strip.lstrip s).
Proof. induction s as [|c s IH]; simpl; [done|]. by case_match. Qed.

Lemma lstrip_id (s : string) : no_lead s → Strip.lstrip s = s.
Proof. destruct s as [|c s]; simpl; [done|]. by intros ->. Qed.

Lemma rstrip_no_lead (s : string) : no_lead s → no_lead (Strip.rstrip s).
Proof.
  destruct s as [|c s]; simpl; [done|]. intros Hc.
  destruct (Strip.rstrip s); [by rewrite Hc|done].
Qed.

Lemma rstrip_idem (s : string) :
  Strip.rstrip (Strip.rstrip s) = Strip.rstrip s.
Proof.
  induction s as [|c s IH]; simpl; [done|].
  destruct (Strip.rstrip s) as [|a r] eqn:Hr.
  - destruct (Strip.isspace c) eqn:Hc; simpl; [done|by rewrite Hc].
  - cbn [Strip.rstrip]. cbn [Strip.rstrip] in IH. by rewrite IH.
Qed.

Lemma strip_idem (s : string) : Strip.strip (Strip.strip s) = Strip.strip s.
Proof.
  unfold Strip.strip.
  rewrite (lstrip_id (Strip.rstrip _))
    by apply rstrip_no_lead, lstrip_no_lead.
  apply rstrip_idem.
Qed.

Lemma truthy_ne (s : string) : truthy s = true ↔ s ≠ EmptyString.
Proof. by destruct s. Qed.

Lemma elem_of_parse_list_argument (value item : string) :
  item ∈ parse_list_argument value
  ↔ item ≠ EmptyString
    ∧ ∃ raw, raw ∈ Str.split ","%char value ∧ Strip.strip raw = item.
Proof.
  unfold parse_list_argument. rewrite list_elem_of_fmap. split.
  - intros (raw & -> & [Hraw Ht]%list_elem_of_In%filter_In).
    apply truthy_ne in Ht. split; [done|].
    exists raw. by rewrite list_elem_of_In.
  - intros (Hne & raw & Hraw & <-). exists raw. split; [done|].
    apply list_elem_of_In, filter_In. rewrite <-list_elem_of_In.
    by rewrite truthy_ne.
Qed.

Lemma parse_list_argument_items (value : string) :
  Forall list_item (parse_list_argument value).
Proof.
  apply Forall_forall.
  intros item (Hne & raw & Hraw & <-)%elem_of_parse_list_argument.
  split_and!; [done| |apply strip_idem].
  apply contains_rstrip, contains_lstrip. by apply (split_no_sep _ value).
Qed.

Lemma split_whole (sep : ascii) (s : string) :
  Str.contains sep s = false → Str.split sep s = [s].
Proof.
  induction s as [|c s IH]; simpl; [done|].
  intros [Hc Hs]%orb_false_iff. by rewrite Hc, (IH Hs).
Qed.

Lemma split_sep_append (sep : ascii) (s rest : string) :
  Str.contains sep s = false →
  Str.split sep (s +:+ String sep rest) = s :: Str.split sep rest.
Proof.
  induction s as [|c s IH]; intros H.
  - change (EmptyString +:+ String sep rest) with (String sep rest).
    simpl. by rewrite Ascii.eqb_refl.
  - simpl in H. apply orb_false_iff in H as [Hc Hs].
    change (String c s +:+ String sep rest)
      with (String c (s +:+ String sep rest)).
    simpl. by rewrite Hc, (IH Hs).
Qed.

Lemma split_join_sep (sep : ascii) (parts : list string) :
  Forall (λ s, Str.contains sep s = false) parts → parts ≠ [] →
  Str.split sep (Str.join (String sep EmptyString) parts) = parts.
Proof.
  unfold Str.join.
  induction 1 as [|s parts Hs Hparts IH]; [done|]. intros _.
  destruct parts as [|s' parts].
  - by apply split_whole.
  - change (String.concat (String sep EmptyString) (s :: s' :: parts))
      with (s +:+ String sep
                    (String.concat (String sep EmptyString) (s' :: parts))).
    rewrite split_sep_append by done. f_equal. by apply IH.
Qed.

Lemma strip_filter_items (items : list string) :
  Forall list_item items →
  Strip.strip <$> List.filter (λ item, truthy (Strip.strip item)) items
  = items.
Proof.
  induction 1 as [|item items (Hne & _ & Hstrip) _ IH]; [done|].
  cbn [List.filter]. rewrite Hstrip. apply truthy_ne in Hne. rewrite Hne.
  by rewrite fmap_cons, Hstrip, IH.
Qed.

(** X12: what [parse_list_argument] returns: every item is non-empty, holds
    no comma and no white space at either end; the items are the trimmed
    pieces between the commas that are not empty; and joining the result
    with commas and parsing again gives the same list. *)
Theorem parse_list_argument_normal (value : string) :
  Forall list_item (parse_list_argument value)
  ∧ (∀ item, item ∈ parse_list_argument value
             ↔ item ≠ EmptyString
               ∧ ∃ raw, raw ∈ Str.split ","%char value
                        ∧ Strip.strip raw = item)
  ∧ parse_list_argument (Str.join "," (parse_list_argument value))
    = parse_list_argument value.
Proof.
  pose proof (parse_list_argument_items value) as Hitems. split_and!.
  - done.
  - apply elem_of_parse_list_argument.
  - destruct (parse_list_argument value) as [|item items] eqn:Hparse;
      [done|].
    unfold parse_list_argument at 1.
    rewrite (split_join_sep ","%char) by
      (done || (eapply Forall_impl; [exact Hitems|]; by intros ? (_ & ? & _))).
    by apply strip_filter_items.
Qed.

(** X13: a list of well-formed items (non-empty, no comma, no white space
    at either end) comes back unchanged from joining with commas and
    parsing. *)
Theorem parse_list_argument_join (items : list string) :
  Forall list_item items →
  parse_list_argument (Str.join "," items) = items.
Proof.
  intros Hitems. destruct items as [|item items]; [done|].
  unfold parse_list_argument.
  rewrite (split_join_sep ","%char) by
    (done || (eapply Forall_impl; [exact Hitems|]; by intros ? (_ & ? & _))).
  by apply strip_filter_items.
Qed.

(** X14: the directory names given to [--exclude-dirs] take effect
    whatever the white space around them: a directory below the root whose
    bare name is one of the trimmed, non-empty pieces of the option text is
    excluded under the configuration [main] builds. *)
Theorem exclude_dirs_option
    (args : Args) (text raw : string) (dir_path : Path) :
  arg_exclude_dirs args = Some text →
  under_root (configure args) dir_path →
  raw ∈ Str.split ","%char text →
  Strip.strip raw = PurePath.name dir_path →
  PurePath.name dir_path ≠ EmptyString →
  should_exclude_dir (configure args) dir_path = Ok true.
Proof.
  intros Htext (rel & _ & Hrel)%relative_to_under_root Hraw Hstrip Hne.
  unfold should_exclude_dir. rewrite Hrel. simpl_result.
  assert (PurePath.name dir_path ∈ exclude_dirs (configure args)) as Hin.
  { cbn [configure exclude_dirs]. rewrite Htext. simpl.
    apply elem_of_list_to_set, elem_of_parse_list_argument. eauto. }
  rewrite (bool_decide_eq_true_2 _ Hin), orb_true_r. by case_match.
Qed.

(** X15: an include option whose text holds no item (empty, or commas and
    white space only) sets an empty include list, not an absent one: the
    report then holds no file. *)
Theorem empty_include_option (args : Args) (text : string) (n : node) :
  arg_include_files args = Some text →
  (∀ raw, raw ∈ Str.split ","%char text → Strip.strip raw = EmptyString) →
  include_files (configure args) = Some []
  ∧ collect_files (configure args) (root_dir (configure args)) n = Ok [].
Proof.
  intros Htext Hblank.
  assert (include_files (configure args) = Some []) as Hinc.
  { cbn [configure include_files]. rewrite Htext. simpl. f_equal.
    destruct (parse_list_argument text) as [|item items] eqn:Hparse; [done|].
    assert (item ∈ parse_list_argument text) as Hin by (rewrite Hparse; by left).
    apply elem_of_parse_list_argument in Hin as (Hne & raw & Hraw & <-).
    by destruct (Hne (Hblank raw Hraw)). }
  split; [done|].
  rewrite collect_files_collected by apply under_root_root. f_equal.
  destruct (collected _ _ n) as [|p files] eqn:Hfiles; [done|].
  assert (p ∈ collected (configure args) (root_dir (configure args)) n)
    as (rel & Hp & _ & _ & Hpass)%collected_entries_at
    by (rewrite Hfiles; by left).
  rewrite (should_exclude_file_decision _ p rel) in Hpass
    by by apply relative_to_Ok.
  unfold not_included in Hpass. rewrite Hinc in Hpass.
  rewrite bool_decide_eq_false_2 in Hpass by apply not_elem_of_nil.
  by rewrite orb_true_r in Hpass.
Qed.

(** ** Indentation of the tree *)

Lemma tree_lines_indent (self : Code2MD) (n : node) :
  ∀ path prefix is_last l,
    under_root self path →
    PurePath.eqb path (root_dir self) = false →
    l ∈ tree_lines self path n prefix is_last →
    ∃ rel segments,
      line_path l = path ++ rel
      ∧ line_prefix l = prefix +:+ Str.join "" segments
      ∧ length segments = length rel
      ∧ Forall (λ s, is_segment s = true) segments.
Proof.
  assert (∀ path prefix is_last d,
            ∃ rel segments,
              line_path (Line prefix is_last path d) = path ++ rel
              ∧ line_prefix (Line prefix is_last path d)
                = prefix +:+ Str.join "" segments
              ∧ length segments = length rel
              ∧ Forall (λ s, is_segment s = true) segments) as Hhead.
  { intros path prefix is_last d. exists [], []. simpl.
    by rewrite app_nil_r, append_nil_r. }
  induction n as [| | |children IH] using node_ind;
    intros path prefix is_last l Hpath Hroot;
    [by intros ->%list_elem_of_singleton..|].
  rewrite tree_lines_dir. intros [->|Hl]%elem_of_cons; [apply Hhead|].
  destruct (passes (should_exclude_dir self path)); [|by apply elem_of_nil in Hl].
  apply list_elem_of_In, in_concat in Hl as (ls & Hls & Hl).
  apply list_elem_of_In, elem_of_lookup_imap in Hls as (i & child & -> & Hi).
  apply list_elem_of_lookup_2, elem_of_tree_children in Hi as [Hin _].
  apply list_elem_of_In in Hl. rewrite Forall_forall in IH.
  apply (IH child Hin) in Hl as (rel & segments & Hp & Hprefix & Hlen & Hseg);
    [|by apply under_root_joinpath|by apply joinpath_not_root].
  unfold child_prefix in Hprefix. rewrite Hroot in Hprefix.
  exists (child.1 :: rel),
    ((if is_last then "    " else "│   ") :: segments).
  split_and!.
  - by rewrite Hp, joinpath_app.
  - by rewrite Hprefix, join_app, append_assoc.
  - simpl. by rewrite Hlen.
  - constructor; [by destruct is_last|done].
Qed.

(** X16: the indentation of the tree follows the depth: the root line and
    the lines of the entries directly below the root have an empty prefix,
    and the line of an entry [k] levels below the root has a prefix of
    [k - 1] segments of four columns. *)
Theorem tree_indentation (self : Code2MD) (n : node) (l : line) :
  l ∈ tree_lines self (root_dir self) n "" true →
  ∃ rel segments,
    line_path l = root_dir self ++ rel
    ∧ line_prefix l = Str.join "" segments
    ∧ length segments = length rel - 1
    ∧ Forall (λ s, is_segment s = true) segments.
Proof.
  pose proof (under_root_root self) as Hroot.
  assert (∃ rel segments,
            line_path (Line "" true (root_dir self) (is_dir n))
            = root_dir self ++ rel
            ∧ line_prefix (Line "" true (root_dir self) (is_dir n))
              = Str.join "" segments
            ∧ length segments = length rel - 1
            ∧ Forall (λ s, is_segment s = true) segments) as Hhead.
  { exists [], []. simpl. by rewrite app_nil_r. }
  destruct n as [| |[children|]];
    [by intros ->%list_elem_of_singleton..| |by intros ->%list_elem_of_singleton].
  rewrite tree_lines_dir. intros [->|Hl]%elem_of_cons; [apply Hhead|].
  destruct (passes (should_exclude_dir self (root_dir self)));
    [|by apply elem_of_nil in Hl].
  apply list_elem_of_In, in_concat in Hl as (ls & Hls & Hl).
  apply list_elem_of_In, elem_of_lookup_imap in Hls as (i & child & -> & _).
  apply list_elem_of_In, tree_lines_indent in Hl
    as (rel & segments & Hp & Hprefix & Hlen & Hseg);
    [|by apply under_root_joinpath|by apply joinpath_not_root].
  assert (child_prefix self (root_dir self) "" true = "") as Hempty.
  { unfold child_prefix, PurePath.eqb. by rewrite bool_decide_eq_true_2. }
  rewrite Hempty in Hprefix.
  exists (child.1 :: rel), segments. split_and!.
  - by rewrite Hp, joinpath_app.
  - done.
  - simpl. lia.
  - done.
Qed.

(** ** The file lines of the tree and the rules *)

(** X17: below a root that is a directory, every file line of the tree is
    the line of an entry that escapes all the rules of
    [should_exclude_file], and with an include list set its relative path
    is in the list. *)
Theorem tree_file_lines_obey_rules
    (self : Code2MD) (listing : option (list (string * node))) (l : line) :
  l ∈ tree_lines self (root_dir self) (Dir listing) "" true →
  line_is_dir l = false →
  ∃ rel, line_path l = root_dir self ++ rel
         ∧ file_exclusion_rules self (PurePath.name (line_path l))
             (PurePath.str rel) = false
         ∧ ∀ included, include_files self = Some included →
                       PurePath.str rel ∈ included.
Proof.
  intros Hl Hd.
  assert (∃ l', l' ∈ tree_lines self (root_dir self) (Dir listing) "" true
                ∧ line_path l' = line_path l ∧ line_is_dir l' = false)
    as Hex by eauto.
  apply tree_lines_entries_at in Hex
    as [[_ ?]|(rel & m & _ & Hp & _ & Hm & _ & Hpass)]; [done|].
  exists rel. split; [done|].
  unfold node_excluded in Hpass. rewrite <-Hm in Hpass.
  rewrite (should_exclude_file_decision self (line_path l) rel) in Hpass
    by by apply relative_to_Ok.
  simpl in Hpass. unfold not_included in Hpass.
  destruct (file_exclusion_rules _ _ _); [done|]. split; [done|].
  intros included Hinc. rewrite Hinc in Hpass. simpl in Hpass.
  by destruct (bool_decide_reflect (PurePath.str rel ∈ included)).
Qed.

(** ** The further statements at concrete inputs *)

Lemma should_exclude_dir_rules_witness :
  PurePath.relative_to ["proj"; "build"; "sub"; "deep"] (root_dir full_config)
  = Ok ["build"; "sub"; "deep"]
  ∧ Forall component ["build"; "sub"; "deep"]
  ∧ should_exclude_dir full_config ["proj"; "build"; "sub"; "deep"]
    = Ok (dir_exclusion_rules full_config "deep" ["build"; "sub"; "deep"])
  ∧ dir_exclusion_rules full_config "deep" ["build"; "sub"; "deep"] = true.
Proof.
  split; [reflexivity|]. split; [repeat constructor|].
  split; [|reflexivity].
  apply (should_exclude_dir_rules full_config
           ["proj"; "build"; "sub"; "deep"] ["build"; "sub"; "deep"]);
    [reflexivity|repeat constructor].
Defined.

Lemma should_exclude_file_rules_witness :
  PurePath.relative_to ["proj"; "src"; "util.py"] (root_dir full_config)
  = Ok ["src"; "util.py"]
  ∧ file_exclusion_rules full_config "util.py" "src/util.py" = false
  ∧ not_included full_config "src/util.py" = true
  ∧ should_exclude_file full_config ["proj"; "src"; "util.py"] = Ok true.
Proof.
  split; [reflexivity|]. split; [reflexivity|]. split; [reflexivity|].
  exact (should_exclude_file_rules full_config ["proj"; "src"; "util.py"]
           ["src"; "util.py"] eq_refl).
Defined.

Lemma prefix_exclusion_inherited_witness :
  PurePath.relative_to ["proj"; "build"; "sub"] (root_dir full_config)
  = Ok ["build"; "sub"]
  ∧ Forall component (["build"; "sub"] ++ ["deep"; "er"])
  ∧ "build/su?" ∈ exclude_patterns full_config
  ∧ Str.contains "/"%char "build/su?" = true
  ∧ "build/sub" ∈ path_prefixes ["build"; "sub"]
  ∧ Fnmatch.fnmatch "build/sub" "build/su?" = true
  ∧ should_exclude_dir full_config (["proj"; "build"; "sub"] ++ ["deep"; "er"])
    = Ok true.
Proof.
  split; [reflexivity|]. split; [repeat constructor|].
  split; [repeat constructor|]. split; [reflexivity|].
  split; [unfold path_prefixes; simpl; repeat constructor|].
  split; [reflexivity|].
  apply (prefix_exclusion_inherited full_config ["proj"; "build"; "sub"]
           ["build"; "sub"] ["deep"; "er"] "build/su?" "build/sub").
  - reflexivity.
  - repeat constructor.
  - repeat constructor.
  - reflexivity.
  - unfold path_prefixes. simpl. repeat constructor.
  - reflexivity.
Defined.

Lemma regular_file_lines_Permutation_witness :
  regular (Dir (Some straddle_tree)) = true
  ∧ ∃ files,
      collect_files (default_config ["proj"])
        (root_dir (default_config ["proj"])) (Dir (Some straddle_tree))
      = Ok files
      ∧ file_paths (tree_lines (default_config ["proj"])
                      (root_dir (default_config ["proj"]))
                      (Dir (Some straddle_tree)) "" true)
        ≡ₚ files
      ∧ length (file_paths (tree_lines (default_config ["proj"])
                              (root_dir (default_config ["proj"]))
                              (Dir (Some straddle_tree)) "" true))
        = length files.
Proof.
  split; [reflexivity|].
  apply (regular_file_lines_Permutation (default_config ["proj"])
           (Some straddle_tree)).
  reflexivity.
Defined.

Lemma collect_files_NoDup_witness :
  unique_names locked_tree = true
  ∧ ∃ files,
      collect_files (default_config ["proj"])
        (root_dir (default_config ["proj"])) locked_tree = Ok files
      ∧ NoDup files.
Proof.
  split; [by vm_compute|].
  apply (collect_files_NoDup (default_config ["proj"]) locked_tree).
  by vm_compute.
Defined.

Lemma parse_list_argument_join_witness :
  Forall list_item ["main.py"; "src/my file.py"]
  ∧ parse_list_argument (Str.join "," ["main.py"; "src/my file.py"])
    = ["main.py"; "src/my file.py"].
Proof.
  assert (Forall list_item ["main.py"; "src/my file.py"]) as Hitems
    by (repeat constructor; discriminate).
  split; [exact Hitems|].
  apply (parse_list_argument_join ["main.py"; "src/my file.py"] Hitems).
Defined.

Lemma exclude_dirs_option_witness :
  arg_exclude_dirs sample_args = Some " build , dist "
  ∧ under_root (configure sample_args) ["proj"; "src"; "dist"]
  ∧ " dist " ∈ Str.split ","%char " build , dist "
  ∧ Strip.strip " dist " = PurePath.name ["proj"; "src"; "dist"]
  ∧ PurePath.name ["proj"; "src"; "dist"] ≠ EmptyString
  ∧ should_exclude_dir (configure sample_args) ["proj"; "src"; "dist"]
    = Ok true.
Proof.
  split; [reflexivity|]. split; [by exists ["src"; "dist"]|].
  split; [simpl; repeat constructor|]. split; [reflexivity|].
  split; [discriminate|].
  apply (exclude_dirs_option sample_args " build , dist " " dist "
           ["proj"; "src"; "dist"]).
  - reflexivity.
  - by exists ["src"; "dist"].
  - simpl. repeat constructor.
  - reflexivity.
  - discriminate.
Defined.

Lemma empty_include_option_witness :
  arg_include_files sample_args = Some " , "
  ∧ (∀ raw, raw ∈ Str.split ","%char " , " → Strip.strip raw = EmptyString)
  ∧ include_files (configure sample_args) = Some []
  ∧ collect_files (configure sample_args) (root_dir (configure sample_args))
      (Dir (Some one_file))
    = Ok [].
Proof.
  assert (∀ raw, raw ∈ Str.split ","%char " , " → Strip.strip raw = EmptyString)
    as Hblank.
  { intros raw Hraw. simpl in Hraw.
    apply elem_of_cons in Hraw as [->|Hraw]; [reflexivity|].
    apply list_elem_of_singleton in Hraw as ->. reflexivity. }
  split; [reflexivity|]. split; [exact Hblank|].
  apply (empty_include_option sample_args " , " (Dir (Some one_file)));
    [reflexivity|exact Hblank].
Defined.

Lemma tree_indentation_witness :
  Line "│   " true ["proj"; "a"; "x.py"] false
  ∈ tree_lines (default_config ["proj"]) (root_dir (default_config ["proj"]))
      locked_tree "" true
  ∧ ∃ rel segments,
      line_path (Line "│   " true ["proj"; "a"; "x.py"] false)
      = root_dir (default_config ["proj"]) ++ rel
      ∧ line_prefix (Line "│   " true ["proj"; "a"; "x.py"] false)
        = Str.join "" segments
      ∧ length segments = length rel - 1
      ∧ Forall (λ s, is_segment s = true) segments.
Proof.
  assert (Line "│   " true ["proj"; "a"; "x.py"] false
          ∈ tree_lines (default_config ["proj"])
              (root_dir (default_config ["proj"])) locked_tree "" true) as Hl.
  { apply list_elem_of_In. vm_compute. right. right. left. reflexivity. }
  split; [exact Hl|].
  apply (tree_indentation (default_config ["proj"]) locked_tree _ Hl).
Defined.

Lemma tree_file_lines_obey_rules_witness :
  Line "    " true ["proj"; "src"; "main.py"] false
  ∈ tree_lines full_config (root_dir full_config)
      (Dir (Some [("src", Dir (Some [("main.py", File); ("util.py", File)]))]))
      "" true
  ∧ line_is_dir (Line "    " true ["proj"; "src"; "main.py"] false) = false
  ∧ ∃ rel, line_path (Line "    " true ["proj"; "src"; "main.py"] false)
           = root_dir full_config ++ rel
           ∧ file_exclusion_rules full_config
               (PurePath.name
                  (line_path (Line "    " true ["proj"; "src"; "main.py"] false)))
               (PurePath.str rel) = false
           ∧ ∀ included, include_files full_config = Some included →
                         PurePath.str rel ∈ included.
Proof.
  assert (Line "    " true ["proj"; "src"; "main.py"] false
          ∈ tree_lines full_config (root_dir full_config)
              (Dir (Some [("src", Dir (Some [("main.py", File);
                                              ("util.py", File)]))]))
              "" true) as Hl.
  { apply list_elem_of_In. vm_compute. right. right. left. reflexivity. }
  split; [exact Hl|]. split; [reflexivity|].
  apply (tree_file_lines_obey_rules full_config _ _ Hl). reflexivity.
Defined.

(** ** Unreadable directories *)

Lemma is_dir_unlock (n : node) : is_dir (unlock n) = is_dir n.
Proof. by destruct n as [| |[children|]]. Qed.

Lemma is_file_unlock (n : node) : is_file (unlock n) = is_file n.
Proof. by destruct n as [| |[children|]]. Qed.

Lemma filter_ext_bool {A : Type} (f g : A → bool) (l : list A) :
  (∀ x, f x = g x) → List.filter f l = List.filter g l.
Proof.
  intros H. induction l as [|x l IH]; simpl; [done|]. by rewrite H, IH.
Qed.

Lemma tree_children_unlock (self : Code2MD) (path : Path)
    (children : list (string * node)) :
  tree_children self path
    (map (λ child : string * node, (child.1, unlock child.2)) children)
  = map (λ child : string * node, (child.1, unlock child.2))
      (tree_children self path children).
Proof.
  unfold tree_children.
  rewrite (sorted_map_key tuple_ltb child_tree_key _ child_tree_key).
  2:{ intros child. unfold child_tree_key. simpl. by rewrite is_file_unlock. }
  rewrite filter_map_swap. f_equal. apply filter_ext_bool.
  intros child. unfold child_excluded. simpl. by rewrite is_dir_unlock.
Qed.

Lemma collect_children_unlock (children : list (string * node)) :
  collect_children
    (map (λ child : string * node, (child.1, unlock child.2)) children)
  = map (λ child : string * node, (child.1, unlock child.2))
      (collect_children children).
Proof.
  unfold collect_children.
  by apply (sorted_map_key Str.ltb child_name_key _ child_name_key).
Qed.

Lemma tree_lines_unlock (self : Code2MD) (n : node) :
  ∀ path prefix is_last,
    tree_lines self path (unlock n) prefix is_last
    = tree_lines self path n prefix is_last.
Proof.
  induction n as [| | |children IH] using node_ind;
    intros path prefix is_last; [done|done| |].
  - cbn [unlock]. rewrite tree_lines_dir. cbn [tree_lines is_dir].
    by case_match.
  - cbn [unlock]. rewrite !tree_lines_dir, tree_children_unlock.
    f_equal. case_match; [|done]. f_equal.
    rewrite length_map.
    change (map ?f ?l) with (f <$> l). rewrite imap_fmap.
    apply imap_ext. intros i child Hi. simpl.
    rewrite Forall_forall in IH. apply (IH child).
    apply list_elem_of_lookup_2 in Hi.
    by apply elem_of_tree_children in Hi as [? _].
Qed.

Lemma collected_unlock (self : Code2MD) (n : node) :
  ∀ path, collected self path (unlock n) = collected self path n.
Proof.
  induction n as [| | |children IH] using node_ind; intros path;
    [done|done| |].
  - cbn [unlock]. rewrite collected_dir. cbn [collected]. by case_match.
  - cbn [unlock]. rewrite !collected_dir, collect_children_unlock.
    case_match; [|done]. f_equal. rewrite map_map.
    apply map_ext_in. intros child Hin. simpl.
    rewrite Forall_forall in IH. apply (IH child).
    apply (proj2 (list_elem_of_In _ _)) in Hin.
    by apply (proj1 (elem_of_collect_children _ _)) in Hin.
Qed.

Lemma generate_tree_structure_children
    (self : Code2MD) (path : Path) (children : list (string * node))
    (prefix : string) (is_last : bool) :
  under_root self path →
  should_exclude_dir self path = Ok false →
  generate_tree_structure self path (Dir (Some children)) prefix is_last
  = (λ subs, render_line self (Line prefix is_last path true)
             +:+ Str.join "" subs)
    <$> mapM (λ ie : nat * (string * node),
                generate_tree_structure self (path /p ie.2.1) ie.2.2
                  (child_prefix self path prefix is_last)
                  (Nat.eqb ie.1
                     (length (tree_children self path children) - 1)))
          (enumerate (tree_children self path children)).
Proof.
  intros Hpath Hvis.
  rewrite generate_tree_structure_lines, tree_lines_dir, Hvis by done.
  cbn [passes].
  rewrite (mapM_Ok _
    (λ ie : nat * (string * node),
       render_lines self
         (tree_lines self (path /p ie.2.1) ie.2.2
            (child_prefix self path prefix is_last)
            (Nat.eqb ie.1 (length (tree_children self path children) - 1))))).
  2:{ apply Forall_forall. intros ie _.
      by apply generate_tree_structure_lines, under_root_joinpath. }
  simpl_result. f_equal.
  change (render_lines self (?l :: ?ls))
    with (render_line self l +:+ render_lines self ls).
  f_equal. unfold enumerate.
  change (map ?f ?l) with (f <$> l). rewrite fmap_imap.
  rewrite <-join_render_lines.
  change (map ?f ?l) with (f <$> l). by rewrite fmap_imap.
Qed.

Lemma collect_files_children
    (self : Code2MD) (path : Path) (children : list (string * node)) :
  under_root self path →
  should_exclude_dir self path = Ok false →
  collect_files self path (Dir (Some children))
  = (λ subs, concat subs)
    <$> mapM (λ child : string * node,
                collect_files self (path /p child.1) child.2)
          (collect_children children).
Proof.
  intros Hpath Hvis.
  rewrite collect_files_collected, collected_dir, Hvis by done.
  cbn [passes].
  rewrite (mapM_Ok _ (λ child : string * node,
                        collected self (path /p child.1) child.2)); [done|].
  apply Forall_forall. intros child _.
  by apply collect_files_collected, under_root_joinpath.
Qed.

(** C8: a directory whose listing raises [PermissionError] is recovered in
    the call that lists it: the renderer returns the line of that directory
    alone and the collector no file, both traversals give what they give
    when the directory is readable and empty, and neither hands a
    [PermissionError] to the caller of the directory that holds it.  That
    directory goes on with its other entries:
    when these are regular files and directories, the string of the
    renderer is the line of the holding directory followed by the strings
    of all its children that pass the filter, in rendering order; the list
    of the collector is the lists of all its children in visiting order;
    and a regular file next to the unreadable directory that passes
    [should_exclude_file] is in the collected list. *)
Theorem permission_error_recovered
    (self : Code2MD) (path : Path) (children : list (string * node))
    (locked : string) (prefix : string) (is_last : bool) :
  under_root self path →
  (locked, Dir None) ∈ children →
  (∀ prefix' last',
     generate_tree_structure self (path /p locked) (Dir None) prefix' last'
     = Ok (render_line self (Line prefix' last' (path /p locked) true)))
  ∧ collect_files self (path /p locked) (Dir None) = Ok []
  ∧ generate_tree_structure self path (Dir (Some children)) prefix is_last
    = generate_tree_structure self path (unlock (Dir (Some children)))
        prefix is_last
  ∧ collect_files self path (Dir (Some children))
    = collect_files self path (unlock (Dir (Some children)))
  ∧ generate_tree_structure self path (Dir (Some children)) prefix is_last
    ≠ Raise PermissionError
  ∧ collect_files self path (Dir (Some children)) ≠ Raise PermissionError
  ∧ (should_exclude_dir self path = Ok false →
     forallb (λ child : string * node, file_or_dir child.2) children = true →
     generate_tree_structure self path (Dir (Some children)) prefix is_last
     = (λ subs, render_line self (Line prefix is_last path true)
                +:+ Str.join "" subs)
       <$> mapM (λ ie : nat * (string * node),
                   generate_tree_structure self (path /p ie.2.1) ie.2.2
                     (child_prefix self path prefix is_last)
                     (Nat.eqb ie.1
                        (length (tree_children self path children) - 1)))
             (enumerate (tree_children self path children))
     ∧ collect_files self path (Dir (Some children))
       = (λ subs, concat subs)
         <$> mapM (λ child : string * node,
                     collect_files self (path /p child.1) child.2)
               (collect_children children)
     ∧ (∀ child, child ∈ children →
                 child_excluded self path child = Ok false →
                 child ∈ tree_children self path children)
     ∧ (∀ child, child ∈ children → child ∈ collect_children children)
     ∧ (∀ name files,
          (name, File) ∈ children →
          should_exclude_file self (path /p name) = Ok false →
          collect_files self path (Dir (Some children)) = Ok files →
          path /p name ∈ files)).
Proof.
  intros Hpath Hlocked.
  pose proof (under_root_joinpath self path locked Hpath) as Hchild.
  split_and!.
  - intros prefix' last'. rewrite generate_tree_structure_lines by done.
    simpl. by rewrite append_nil_r.
  - by rewrite collect_files_collected.
  - rewrite !generate_tree_structure_lines by done.
    by rewrite tree_lines_unlock.
  - rewrite !collect_files_collected by done. by rewrite collected_unlock.
  - by rewrite generate_tree_structure_lines.
  - by rewrite collect_files_collected.
  - intros Hvis _. split_and!.
    + by apply generate_tree_structure_children.
    + by apply collect_files_children.
    + intros child Hin Hpass. apply elem_of_tree_children.
      split; [done|by rewrite Hpass].
    + intros child Hin. by apply elem_of_collect_children.
    + intros name files Hin Hpass Hfiles.
      rewrite collect_files_collected in Hfiles by done.
      assert (files = collected self path (Dir (Some children))) as ->
        by congruence.
      apply (proj2 (collected_entries_at self _ path (path /p name))).
      exists [name]. split_and!.
      * done.
      * apply elem_of_entries_at_cons. exists (name, File).
        split_and!; [done|done|by apply list_elem_of_singleton].
      * by rewrite ancestors_pass_cons, Hvis.
      * by rewrite Hpass.
Qed.

Lemma permission_error_recovered_witness :
  under_root (default_config ["proj"]) ["proj"]
  ∧ ("locked", Dir None)
    ∈ [("a", Dir (Some [("x.py", File)])); ("locked", Dir None); ("z.txt", File)]
  ∧ should_exclude_dir (default_config ["proj"]) ["proj"] = Ok false
  ∧ generate_tree_structure (default_config ["proj"]) ["proj"; "locked"]
      (Dir None) "" false
    = Ok (render_line (default_config ["proj"])
            (Line "" false ["proj"; "locked"] true))
  ∧ collect_files (default_config ["proj"]) ["proj"; "locked"] (Dir None) = Ok []
  ∧ ("z.txt", File)
    ∈ tree_children (default_config ["proj"]) ["proj"]
        [("a", Dir (Some [("x.py", File)])); ("locked", Dir None);
         ("z.txt", File)]
  ∧ collect_files (default_config ["proj"]) ["proj"] locked_tree
    = Ok [["proj"; "a"; "x.py"]; ["proj"; "z.txt"]]
  ∧ ∀ files,
      collect_files (default_config ["proj"]) ["proj"] locked_tree = Ok files →
      ["proj"; "z.txt"] ∈ files.
Proof.
  assert (under_root (default_config ["proj"]) ["proj"]) as Hroot
    by by exists [].
  assert (("locked", Dir None)
          ∈ [("a", Dir (Some [("x.py", File)])); ("locked", Dir None);
             ("z.txt", File)]) as Hlocked by (right; left).
  destruct (permission_error_recovered (default_config ["proj"]) ["proj"]
              [("a", Dir (Some [("x.py", File)])); ("locked", Dir None);
               ("z.txt", File)]
              "locked" "" true Hroot Hlocked)
    as (Htree & Hfiles & _ & _ & _ & _ & Hrest).
  destruct (Hrest eq_refl eq_refl) as (_ & _ & Hshown & _ & Hcollected).
  split_and!.
  - exact Hroot.
  - exact Hlocked.
  - reflexivity.
  - exact (Htree "" false).
  - exact Hfiles.
  - apply Hshown; [right; right; left|reflexivity].
  - reflexivity.
  - intros files. apply (Hcollected "z.txt"); [right; right; left|reflexivity].
Defined.

(** ** What the traversals reach *)









(** X9: a regular file or a directory that its own check excludes leaves
    no trace: with or without it in the listing of a directory below the
    root, in whatever place the host lists it, [generate_tree_structure]
    returns the same string and [collect_files] the same list. *)
Theorem excluded_child_invisible
    (self : Code2MD) (path : Path) (l1 l2 : list (string * node))
    (x : string * node) (prefix : string) (is_last : bool) :
  under_root self path →
  file_or_dir x.2 = true →
  child_excluded self path x = Ok true →
  generate_tree_structure self path (Dir (Some (l1 ++ x :: l2))) prefix is_last
  = generate_tree_structure self path (Dir (Some (l1 ++ l2))) prefix is_last
  ∧ collect_files self path (Dir (Some (l1 ++ x :: l2)))
    = collect_files self path (Dir (Some (l1 ++ l2))).
Proof.
  intros Hpath _ Hx.
  assert (passes (child_excluded self path x) = false) as Hpass
    by by rewrite Hx.
  split.
  - rewrite !generate_tree_structure_lines, !tree_lines_dir by done.
    by rewrite tree_children_middle.
  - rewrite !collect_files_collected, !collected_dir by done.
    by rewrite collected_children_middle.
Qed.




Lemma excluded_child_invisible_witness :
  under_root open_config ["proj"]
  ∧ file_or_dir node_modules.2 = true
  ∧ child_excluded open_config ["proj"] node_modules = Ok true
  ∧ generate_tree_structure open_config ["proj"]
      (Dir (Some ([("a.txt", File)] ++ node_modules :: [("z", Dir None)])))
      "" true
    = generate_tree_structure open_config ["proj"]
        (Dir (Some ([("a.txt", File)] ++ [("z", Dir None)]))) "" true
  ∧ collect_files open_config ["proj"]
      (Dir (Some ([("a.txt", File)] ++ node_modules :: [("z", Dir None)])))
    = collect_files open_config ["proj"]
        (Dir (Some ([("a.txt", File)] ++ [("z", Dir None)]))).
Proof.
  split; [by exists []|]. split; [reflexivity|]. split; [reflexivity|].
  apply (excluded_child_invisible open_config ["proj"] [("a.txt", File)]
           [("z", Dir None)] node_modules "" true);
    [by exists []|reflexivity|reflexivity].
Defined.

